(** * SQLAir: a shallow embedding of the query executor, the table registry
      and the connection dispatcher of [SQLAir.cpp].

    The C++ methods are translated one by one.  Exceptions become an
    explicit result type, objects passed by reference become explicit
    state, and the synchronisation calls (mutex guards, condition
    variable waits and notifications) are recorded in an event log.

    A call of a query is run as one thread, on the table it is given.  A
    call that waits depends on the other threads, which appear as its
    environment: each time the call is woken up from a wait on the table's
    condition variable it finds the table as the environment has left it,
    and while a select scans the table again the environment goes on
    writing the rows whose guard the scan does not hold.  The server loop,
    which does not end, is a transition system over the thread counter and
    the number of running workers. *)

From Stdlib Require Import ZArith String Ascii List Bool Lia DecimalString.
From stdpp Require Import base list strings gmap.

Local Open Scope Z_scope.

(** ** Strings and machine integers *)

Definition tab : string := String "009"%char EmptyString.
Definition endl : string := String "010"%char EmptyString.
Definition CR : string := String "013"%char EmptyString.

Definition INT_MAX : Z := 2147483647.

(** [int] arithmetic is 32-bit two's complement. *)
Definition wrap_int (x : Z) : Z := (x + 2^31) mod 2^32 - 2^31.

(** [rowCount++] on an [int]. *)
Definition int_incr (n : Z) : Z := wrap_int (n + 1).

(** [std::to_string(int)]. *)
Definition to_string (n : Z) : string := NilZero.string_of_int (Z.to_int n).

(** [s.find(t) == 0]. *)
Definition starts_with (t s : string) : bool := String.prefix t s.

(** [s.find(t) != std::string::npos]. *)
Definition contains (t s : string) : bool :=
  match String.index 0 t s with Some _ => true | None => false end.

(** ** Exceptions *)

(** The kinds of error of the design. *)
Inductive ErrorKind :=
  | InvalidQuery | InvalidColumn | NoTableLoaded | LoadFailed | NotImplemented.

(** The source throws one class, [Exp], carrying a message.  The kind tag
    records which entry of the taxonomy a throw site belongs to; the
    library containers throw [std::out_of_range] from [at]. *)
Inductive Exn :=
  | Exp (kind : ErrorKind) (what : string)
  | out_of_range.

Inductive Res (A : Type) :=
  | Ok (a : A)
  | Throw (e : Exn).
Arguments Ok {A} a.
Arguments Throw {A} e.

Global Instance Res_bind : MBind Res := fun A B f m =>
  match m with Ok a => f a | Throw e => Throw e end.

(** ** Synchronisation events *)

Inductive Mutex := rowMutex (i : nat) | csvMutex.
Inductive CondVar := csvCondVar | thrCond.
Inductive SyncEvent :=
  | Lock (m : Mutex)        (* a guard or unique_lock is taken *)
  | Unlock (m : Mutex)      (* ... and released at the end of its scope *)
  | CondWait (cv : CondVar) (* cv.wait(lock): the mutex is released, the thread blocks *)
  | CondWake (cv : CondVar) (* the wait returns with the mutex held again *)
  | NotifyAll (cv : CondVar)
  | NotifyOne (cv : CondVar).

Global Instance Mutex_eq_dec : EqDecision Mutex.
Proof. solve_decision. Defined.
Global Instance CondVar_eq_dec : EqDecision CondVar.
Proof. solve_decision. Defined.
Global Instance SyncEvent_eq_dec : EqDecision SyncEvent.
Proof. solve_decision. Defined.

(** ** The table store *)

Abbreviation StrVec := (list string) (only parsing).
Abbreviation CSVRow := (list string) (only parsing).

(** Modelled from the spec: the CSV class (CSV.h) is not under src.  A table
    is an ordered sequence of column names and an ordered sequence of rows
    of cell strings. *)
Record CSV := mkCSV { getColumnNames : StrVec; csvRows : list CSVRow }.

Fixpoint find_index (name : string) (names : StrVec) (i : Z) : option Z :=
  match names with
  | [] => None
  | n :: rest => if String.eqb n name then Some i else find_index name rest (i + 1)
  end.

(** Modelled from the spec: CSV::getColumnIndex is not under src.  It gives
    the position of the column in the header and signals InvalidColumn for a
    name that is not there. *)
Definition getColumnIndex (csv : CSV) (colName : string) : Res Z :=
  match find_index colName (getColumnNames csv) 0 with
  | Some i => Ok i
  | None => Throw (Exp InvalidColumn ("Invalid column name: " +:+ colName))
  end.

(** [row.at(i)], with an [int] argument converted to [size_t]: a negative
    index becomes a huge one and is out of range like any other. *)
Definition at_ (row : list string) (i : Z) : Res string :=
  if (0 <=? i) && (i <? Z.of_nat (length row)) then
    match row !! Z.to_nat i with Some c => Ok c | None => Throw out_of_range end
  else Throw out_of_range.

(** [row.at(i) = v]. *)
Definition set_at (row : list string) (i : Z) (v : string) : Res (list string) :=
  if (0 <=? i) && (i <? Z.of_nat (length row)) then Ok (<[Z.to_nat i := v]> row)
  else Throw out_of_range.

(** Modelled from the spec: operator<< for a StrVec is not under src; the
    header line is the column names separated by tabs. *)
Fixpoint print_StrVec (delim : string) (v : StrVec) : string :=
  match v with
  | [] => ""
  | s :: rest => delim +:+ s +:+ print_StrVec tab rest
  end.

(** ** The state a query runs in *)

(** [csv] is the table the query was given by reference, [os] what has been
    written to the output stream, [sync] the synchronisation calls made so
    far.  [wakeups] is the environment: the contents of the table each time
    the calling thread is woken up from a wait on the table's condition
    variable (other threads change the table in between); when it is
    exhausted the thread stays blocked. *)
Record Exec := mkExec {
  csv : CSV;
  os : string;
  sync : list SyncEvent;
  wakeups : list CSV
}.

Definition log (st : Exec) (evs : list SyncEvent) : Exec :=
  mkExec (csv st) (os st) (sync st ++ evs) (wakeups st).

Definition write (st : Exec) (s : string) : Exec :=
  mkExec (csv st) (os st +:+ s) (sync st) (wakeups st).

(** How a call ends: it returns, it is left by an exception, it is blocked
    in a wait that nothing ends, or it has indexed an empty vector. *)
Inductive Outcome (A : Type) :=
  | Done (a : A)
  | Raised (e : Exn)
  | Waiting
  | Undefined.
Arguments Done {A} a.
Arguments Raised {A} e.
Arguments Waiting {A}.
Arguments Undefined {A}.

Section Executor.

(** [SQLAirBase::matches(cell, cond, value)] is not under src: the matcher is
    a parameter of the executor.  It may throw (a malformed operator). *)
Variable matches : string -> string -> string -> Res bool.

(** The other threads while a select that has been woken up scans the table
    again.  The scan holds [csvMutex] and the guard of one row at a time;
    an update of another thread takes row guards only, so it can write any
    row the scan is not holding.  [racing k i t] is the table at the moment
    the scan that follows wake-up number [k], which found the table [t],
    holds the guard of row [i]. *)
Variable racing : nat -> nat -> CSV -> CSV.

(** *** selectRowProcess *)

(** The inner loop over [colNames]: appends the cells of one row. *)
Fixpoint selectCells (csv : CSV) (row : CSVRow) (colNames : StrVec)
    (rowText delim : string) : Res string :=
  match colNames with
  | [] => Ok rowText
  | colName :: rest =>
      idx ← getColumnIndex csv colName;
      cell ← at_ row idx;
      selectCells csv row rest (rowText +:+ delim +:+ cell) tab
  end.

(** The body of the loop over the rows, for one row. *)
Definition selectRow (csv : CSV) (colNames : StrVec) (whereColIdx : Z)
    (cond value : string) (row : CSVRow) (acc : string * Z) : Res (string * Z) :=
  isMatch ← (if whereColIdx =? -1 then Ok true
             else cell ← at_ row whereColIdx; matches cell cond value);
  if isMatch : bool then
    rowText ← selectCells csv row colNames (fst acc) "";
    Ok (rowText +:+ endl, int_incr (snd acc))
  else Ok acc.

(** The loop over the rows.  Each iteration holds the guard of its row, which
    is released when the iteration ends, also by an exception. *)
Fixpoint selectRows (csv : CSV) (colNames : StrVec) (whereColIdx : Z)
    (cond value : string) (rows : list CSVRow) (i : nat) (acc : string * Z)
    : Res (string * Z) * list SyncEvent :=
  match rows with
  | [] => (Ok acc, [])
  | row :: rest =>
      match selectRow csv colNames whereColIdx cond value row acc with
      | Throw e => (Throw e, [Lock (rowMutex i); Unlock (rowMutex i)])
      | Ok acc' =>
          let '(r, evs) := selectRows csv colNames whereColIdx cond value rest (S i) acc' in
          (r, Lock (rowMutex i) :: Unlock (rowMutex i) :: evs)
      end
  end.

(** [rowText] and [rowCount] are passed by reference: they come in and go
    out as the pair [acc]. *)
Definition selectRowProcess (csv : CSV) (colNames : StrVec) (whereColIdx : Z)
    (cond value : string) (acc : string * Z) : Res (string * Z) * list SyncEvent :=
  selectRows csv colNames whereColIdx cond value (csvRows csv) 0 acc.

(** *** updateRowProcess *)

(** The loop over [colNames] for one row: [row.at(csv.getColumnIndex(colNames[i])) = values.at(i)].
    The right-hand side of the assignment is evaluated first.  The row is
    updated in place, so an exception leaves behind the cells written so
    far: the row comes back next to the exception. *)
Fixpoint updateCells (csv : CSV) (colNames values : StrVec) (i : nat)
    (row : CSVRow) : option Exn * CSVRow :=
  match colNames with
  | [] => (None, row)
  | colName :: rest =>
      match (v ← at_ values (Z.of_nat i);
             idx ← getColumnIndex csv colName;
             set_at row idx v) with
      | Throw e => (Some e, row)
      | Ok row' => updateCells csv rest values (S i) row'
      end
  end.

(** The body of the loop over the rows, for one row. *)
Definition updateRow (csv : CSV) (colNames values : StrVec) (whereColIdx : Z)
    (cond value : string) (row : CSVRow) (rowCount : Z) : Res Z * CSVRow :=
  match (if negb (whereColIdx =? -1)
         then cell ← at_ row whereColIdx; matches cell cond value
         else Ok false (* isMatch stays uninitialised and is not read *)) with
  | Throw e => (Throw e, row)
  | Ok isMatch =>
      if (whereColIdx =? -1) || isMatch then
        match updateCells csv colNames values 0 row with
        | (Some e, row') => (Throw e, row')
        | (None, row') => (Ok (int_incr rowCount), row')
        end
      else (Ok rowCount, row)
  end.

(** The loop over the rows; the rows come back as they are when the loop
    ends or is left by an exception. *)
Fixpoint updateRows (csv : CSV) (colNames values : StrVec) (whereColIdx : Z)
    (cond value : string) (rows : list CSVRow) (i : nat) (rowCount : Z)
    : Res Z * list CSVRow * list SyncEvent :=
  match rows with
  | [] => (Ok rowCount, [], [])
  | row :: rest =>
      match updateRow csv colNames values whereColIdx cond value row rowCount with
      | (Throw e, row') =>
          (Throw e, row' :: rest, [Lock (rowMutex i); Unlock (rowMutex i)])
      | (Ok rowCount', row') =>
          let '(r, rest', evs) :=
            updateRows csv colNames values whereColIdx cond value rest (S i) rowCount' in
          (r, row' :: rest', Lock (rowMutex i) :: Unlock (rowMutex i) :: evs)
      end
  end.

Definition updateRowProcess (csv : CSV) (colNames values : StrVec) (whereColIdx : Z)
    (cond value : string) (rowCount : Z) : Res Z * CSV * list SyncEvent :=
  let '(r, rows', evs) :=
    updateRows csv colNames values whereColIdx cond value (csvRows csv) 0 rowCount in
  (r, mkCSV (getColumnNames csv) rows', evs).

(** *** selectQuery *)

(** The row that the scan after wake-up [k] reads at position [i]: the row
    at that position of the table as it is while the scan holds the guard.
    No query adds or removes a row ([insertQuery] and [deleteQuery] throw),
    so the position exists; [row], the row of the table the thread was woken
    up on, stands for it otherwise. *)
Definition underGuard (k i : nat) (t : CSV) (row : CSVRow) : CSVRow :=
  default row (csvRows (racing k i t) !! i).

(** The table as the scan after wake-up [k] reads it, row by row.  The
    loop [for (auto& row : csv)] runs over the rows there are when it
    starts; each row is read under its own guard, at its own moment.  The
    column names are not written by any query. *)
Definition seenBy (k : nat) (t : CSV) : CSV :=
  mkCSV (getColumnNames t) (imap (fun i row => underGuard k i t row) (csvRows t)).

(** The table when the scan after wake-up [k] has released its last guard. *)
Definition afterScan (k : nat) (t : CSV) : CSV :=
  match length (csvRows t) with
  | O => t
  | S i => racing k i t
  end.

(** The loop [while (rowCount == 0 && mustWait)], one iteration per wake-up;
    [k] counts the wake-ups.  The call of [selectRowProcess] in the loop
    works on the rows as it finds them under their guards. *)
Fixpoint selectLoop (k : nat) (wk : list CSV) (mustWait : bool) (colNames : StrVec)
    (whereColIdx : Z) (cond value : string) (acc : string * Z) (st : Exec)
    {struct wk} : Outcome (string * Z) * Exec :=
  if (snd acc =? 0) && mustWait then
    match wk with
    | [] => (Waiting, log st [Lock csvMutex; CondWait csvCondVar])
    | t :: wk' =>
        let st1 := mkExec (afterScan k t) (os st)
                     (sync st ++ [Lock csvMutex; CondWait csvCondVar; CondWake csvCondVar]) wk' in
        let '(r, evs) := selectRowProcess (seenBy k t) colNames whereColIdx cond value acc in
        let st2 := log st1 (evs ++ [Unlock csvMutex]) in
        match r with
        | Throw e => (Raised e, st2)
        | Ok acc' =>
            selectLoop (S k) wk' (if negb (snd acc' =? 0) then false else mustWait)
              colNames whereColIdx cond value acc' st2
        end
    end
  else (Done acc, st).

(** Everything after the first statement of [selectQuery].  The first scan
    is run on the table the call is given. *)
Definition selectBody (mustWait : bool) (colNames : StrVec) (whereColIdx : Z)
    (cond value : string) (st : Exec) : Outcome unit * Exec :=
  let '(r, evs) := selectRowProcess (csv st) colNames whereColIdx cond value ("", 0) in
  let st1 := log st evs in
  match r with
  | Throw e => (Raised e, st1)
  | Ok acc =>
      match selectLoop 0 (wakeups st1) mustWait colNames whereColIdx cond value acc st1 with
      | (Done (rowText, rowCount), st2) =>
          let st3 := if negb (rowCount =? 0)
                     then write st2 (print_StrVec "" colNames +:+ endl) else st2 in
          (Done tt, write st3 (rowText +:+ to_string rowCount +:+ " row(s) selected." +:+ endl))
      | (Raised e, st2) => (Raised e, st2)
      | (Waiting, st2) => (Waiting, st2)
      | (Undefined, st2) => (Undefined, st2)
      end
  end.

(** [if (colNames[0] == "*") colNames = csv.getColumnNames();] and then the
    rest.  [operator[]] on an empty vector is undefined. *)
Definition selectQuery (mustWait : bool) (colNames : StrVec) (whereColIdx : Z)
    (cond value : string) (st : Exec) : Outcome unit * Exec :=
  match colNames with
  | [] => (Undefined, st)
  | c0 :: _ =>
      selectBody mustWait
        (if String.eqb c0 "*" then getColumnNames (csv st) else colNames)
        whereColIdx cond value st
  end.

(** *** updateQuery *)

(** The loop [while (rowCount == 0 && mustWait)], one iteration per wake-up.
    The scan of an update is run on the table of the wake-up as a whole:
    what the other threads write while an update scans again is not part
    of this model. *)
Fixpoint updateLoop (wk : list CSV) (mustWait : bool) (colNames values : StrVec)
    (whereColIdx : Z) (cond value : string) (rowCount : Z) (st : Exec)
    {struct wk} : Outcome Z * Exec :=
  if (rowCount =? 0) && mustWait then
    match wk with
    | [] => (Waiting, log st [Lock csvMutex; CondWait csvCondVar])
    | t :: wk' =>
        let '(r, t', evs) :=
          updateRowProcess t colNames values whereColIdx cond value rowCount in
        let st2 := mkExec t' (os st)
                     (sync st ++ [Lock csvMutex; CondWait csvCondVar; CondWake csvCondVar] ++ evs ++ [Unlock csvMutex])
                     wk' in
        match r with
        | Throw e => (Raised e, st2)
        | Ok rowCount' =>
            updateLoop wk' (if negb (rowCount' =? 0) then false else mustWait)
              colNames values whereColIdx cond value rowCount' st2
        end
    end
  else (Done rowCount, st).

Definition updateQuery (mustWait : bool) (colNames values : StrVec)
    (whereColIdx : Z) (cond value : string) (st : Exec) : Outcome unit * Exec :=
  let '(r, t', evs) :=
    updateRowProcess (csv st) colNames values whereColIdx cond value 0 in
  let st1 := mkExec t' (os st) (sync st ++ evs) (wakeups st) in
  match r with
  | Throw e => (Raised e, st1)
  | Ok rowCount0 =>
      match updateLoop (wakeups st1) mustWait colNames values whereColIdx cond value
              rowCount0 st1 with
      | (Done rowCount, st2) =>
          let st3 := if negb (rowCount =? 0) then log st2 [NotifyAll csvCondVar] else st2 in
          (Done tt, write st3 (to_string rowCount +:+ " row(s) updated." +:+ endl))
      | (Raised e, st2) => (Raised e, st2)
      | (Waiting, st2) => (Waiting, st2)
      | (Undefined, st2) => (Undefined, st2)
      end
  end.

(** *** insertQuery and deleteQuery *)

Definition insertQuery (mustWait : bool) (colNames values : StrVec)
    (st : Exec) : Outcome unit * Exec :=
  (Raised (Exp NotImplemented "insert is not yet implemented."), st).

Definition deleteQuery (mustWait : bool) (whereColIdx : Z) (cond value : string)
    (st : Exec) : Outcome unit * Exec :=
  (Raised (Exp NotImplemented "delete is not yet implemented."), st).

End Executor.

(** ** The where-clause, from the name of its column to the index *)

(** Modelled from the spec: the caller of the executor,
    [SQLAirBase::process], is not under src.  The design gives a query the
    column of its where-clause by name, or none; [selectQuery] and
    [updateQuery] take the index of the column, -1 when there is none.  The
    name is turned into the index by [CSV::getColumnIndex], which signals
    InvalidColumn for a name that is not in the header. *)
Definition whereColumnIndex (t : CSV) (whereColumn : option string) : Res Z :=
  match whereColumn with
  | None => Ok (-1)
  | Some colName => getColumnIndex t colName
  end.

Section Caller.

Variable matches : string -> string -> string -> Res bool.
Variable racing : nat -> nat -> CSV -> CSV.

(** Modelled from the spec: a select with the column of its where-clause
    given by name; the lookup of the name comes before the call of
    [selectQuery]. *)
Definition selectWhere (mustWait : bool) (colNames : StrVec) (whereColumn : option string)
    (cond value : string) (st : Exec) : Outcome unit * Exec :=
  match whereColumnIndex (csv st) whereColumn with
  | Throw e => (Raised e, st)
  | Ok whereColIdx => selectQuery matches racing mustWait colNames whereColIdx cond value st
  end.

(** Modelled from the spec: an update with the column of its where-clause
    given by name. *)
Definition updateWhere (mustWait : bool) (colNames values : StrVec)
    (whereColumn : option string) (cond value : string) (st : Exec) : Outcome unit * Exec :=
  match whereColumnIndex (csv st) whereColumn with
  | Throw e => (Raised e, st)
  | Ok whereColIdx => updateQuery matches mustWait colNames values whereColIdx cond value st
  end.

End Caller.

(** ** The table registry *)

(** An input stream: whether it is good (no error bit is set), and the
    lines [getline] gives. *)
Record IStream := mkIStream { good : bool; content : list string }.

(** The local files, by path, as lines. *)
Definition Files := gmap string (list string).

(** [std::ifstream data(path)]: a missing file gives a stream that is not good. *)
Definition ifstream (files : Files) (path : string) : IStream :=
  match files !! path with
  | Some ls => mkIStream true ls
  | None => mkIStream false []
  end.

(** The map of loaded tables and the most recently used identifier.  The two
    guards on [recentCSVMutex] delimit critical sections; a call is run
    without interleaving, so they leave no trace here. *)
Record Registry := mkRegistry {
  inMemoryCSV : gmap string CSV;
  recentCSV : string
}.

(** The registry of a server that has just started. *)
Definition emptyRegistry : Registry := mkRegistry ∅ "".

(** The loop that skips the headers of a response, and the stream as the
    loop leaves it.  Lines are read until an empty line (or a lone carriage
    return) has been read: the stream is then good and holds the lines that
    follow.  When the lines run out first, the loop ends because [getline]
    has failed, and the stream is left at its end with its fail bit set. *)
Fixpoint skipHeaders (ls : list string) : IStream :=
  match ls with
  | [] => mkIStream false []
  | hdr :: rest =>
      if negb (String.eqb hdr "") && negb (String.eqb hdr CR) then skipHeaders rest
      else mkIStream true rest
  end.

Section Registry.

(** Not under src: [CSV::load] (it may throw), [CSV::save], [Helper::trim],
    [Helper::breakDownURL], and the remote servers: [network host port] is
    [None] when the connection cannot be made and otherwise maps the
    request sent to the lines of the response. *)
Variable csvLoad : IStream -> Res CSV.
Variable csvSave : CSV -> list string.
Variable trim : string -> string.
Variable breakDownURL : string -> string * string * string.
Variable network : string -> string -> option (string -> list string).

Definition loadFromURL (hostName port path : string) : Res CSV :=
  match network hostName port with
  | None =>
      Throw (Exp LoadFailed ("Unable to connect to " +:+ hostName +:+ " at port " +:+ port))
  | Some server =>
      let client := server ("GET " +:+ path +:+ " HTTP/1.1" +:+ CR +:+ endl +:+
                            "Host: " +:+ hostName +:+ CR +:+ endl +:+
                            "Connection: Close" +:+ CR +:+ endl +:+ CR +:+ endl) in
      let status := hd "" client in
      if negb (contains "200" status) then
        Throw (Exp LoadFailed ("Error (" +:+ trim status +:+ ") getting " +:+ path +:+
                               " from " +:+ hostName +:+ " at port " +:+ port))
      else csvLoad (skipHeaders (tl client))
  end.

(** The load of a table that is not in memory: from a server for an URL,
    from a local file otherwise. *)
Definition loadCSV (files : Files) (fileOrURL : string) : Res CSV :=
  if starts_with "http://" fileOrURL then
    let '(host, port, path) := breakDownURL fileOrURL in
    loadFromURL host port path
  else csvLoad (ifstream files fileOrURL).

(** [loadAndGet] returns a reference to an entry of [inMemoryCSV]: the key
    of the entry stands for the reference. *)
Definition loadAndGet (files : Files) (fileOrURL : string) (reg : Registry)
    : Res string * Registry :=
  let fileOrURL := if String.eqb fileOrURL "" then recentCSV reg else fileOrURL in
  let reg1 := mkRegistry (inMemoryCSV reg) fileOrURL in
  match inMemoryCSV reg1 !! fileOrURL with
  | Some _ => (Ok fileOrURL, reg1)
  | None =>
      match loadCSV files fileOrURL with
      | Throw e => (Throw e, reg1)
      | Ok csv => (Ok fileOrURL, mkRegistry (<[fileOrURL := csv]> (inMemoryCSV reg1)) (recentCSV reg1))
      end
  end.

(** The table a reference returned by [loadAndGet] points to. *)
Definition deref (reg : Registry) (ref : string) : option CSV := inMemoryCSV reg !! ref.

(** [saveQuery]: the output file is opened (and so emptied) before the table
    is looked up. *)
Definition saveQuery (reg : Registry) (files : Files) (os : string)
    : Res unit * Files * string :=
  if String.eqb (recentCSV reg) "" || starts_with "http://" (recentCSV reg) then
    (Throw (Exp NotImplemented "Saving CSV to an URL using POST is not implemented"), files, os)
  else
    let files1 := <[recentCSV reg := []]> files in
    match inMemoryCSV reg !! recentCSV reg with
    | None => (Throw out_of_range, files1, os)
    | Some t => (Ok tt, <[recentCSV reg := csvSave t]> files1, os +:+ recentCSV reg +:+ " saved." +:+ endl)
    end.

End Registry.

(** ** The connection dispatcher *)

(** The request line of a connection, as read by [is >> line >> path]. *)
Record Request := mkRequest { reqLine : string; reqPath : string }.

(** [s.substr(pos)], at call sites where [pos] is within the string (see
    [substr_query_in_range] and [substr_file_in_range]). *)
Definition substr (pos : nat) (s : string) : string :=
  String.substring pos (String.length s - pos) s.

(** [HTTPRespHeader] with the content length filled in. *)
Definition HTTPRespHeader (len : nat) : string :=
  "HTTP/1.1 200 OK" +:+ CR +:+ endl +:+
  "Server: SimpleServer" +:+ CR +:+ endl +:+
  "Content-Length: " +:+ to_string (Z.of_nat len) +:+ CR +:+ endl +:+
  "Connection: Close" +:+ CR +:+ endl +:+
  "Content-Type: text/html" +:+ CR +:+ endl +:+ CR +:+ endl.

Section Dispatcher.

(** Not under src: [Helper::url_decode], [http::file], the text of
    [what()], and [SQLAirBase::process], which parses and runs a query:
    it gives what it wrote to its stream and the exception that ended it,
    if one did. *)
Variable url_decode : string -> string.
Variable httpFile : string -> string.
Variable what : Exn -> string.
Variable process : string -> string * option Exn.

(** [clientThread]: what is written to the connection, the thread counter
    afterwards and the notifications sent. *)
Definition clientThread (req : Request) (numThreads : Z) : string * Z * list SyncEvent :=
  let path := reqPath req in
  let written :=
    if contains "/sql-air?query=" path then
      let path := url_decode (substr 15 path) in
      let '(oss, exn) := process path in
      let html := match exn with
                  | None => oss
                  | Some exp => oss +:+ "Error: " +:+ what exp +:+ endl
                  end in
      HTTPRespHeader (String.length html) +:+ html
    else if negb (String.eqb path "") then
      httpFile (url_decode (substr 1 path))
    else "" in
  (written, numThreads - 1, [NotifyOne thrCond]).

(** The server as a transition system.  [numThreads] is the shared counter,
    [workers] the detached threads that have not yet reached the end of
    [clientThread], and [pc] where the loop of [runServer] stands: at the
    wait on [thrCond], or between the creation of a thread and
    [numThreads++]. *)
Inductive DispatcherPc := AtGate | Spawned.

Record Server := mkServer { numThreads : Z; workers : nat; pc : DispatcherPc }.

(** The declaration of [numThreads] (SQLAir.h) is not under src: the value
    [n0] the counter starts with is a parameter. *)
Definition initialServer (n0 : Z) : Server := mkServer n0 0 AtGate.

Inductive server_step (maxThr : Z) : Server -> Server -> Prop :=
  | runServer_admit n w :
      (* the predicate of the wait holds, a client is accepted, a thread made *)
      n <= maxThr ->
      server_step maxThr (mkServer n w AtGate) (mkServer n (S w) Spawned)
  | runServer_count n w :
      (* numThreads++ *)
      server_step maxThr (mkServer n w Spawned) (mkServer (n + 1) w AtGate)
  | clientThread_finish n w p req :
      (* a worker reaches the end of clientThread *)
      server_step maxThr (mkServer n (S w) p)
                         (mkServer (snd (fst (clientThread req n))) w p).

Inductive reachable (maxThr n0 : Z) : Server -> Prop :=
  | reach_init : reachable maxThr n0 (initialServer n0)
  | reach_step s s' :
      reachable maxThr n0 s -> server_step maxThr s s' -> reachable maxThr n0 s'.

End Dispatcher.

(** What holds of the server in every state it reaches: the counter lags
    behind the number of workers by one between the creation of a thread
    and its count, and it has passed the gate. *)
Definition gate_invariant (maxThr n0 : Z) (s : Server) : Prop :=
  Z.of_nat (workers s) = numThreads s - n0 + (match pc s with Spawned => 1 | AtGate => 0 end)
  /\ (pc s = Spawned -> numThreads s <= maxThr)
  /\ numThreads s <= Z.max n0 (maxThr + 1).

(** ** A matcher and a table to run the executor on *)

(** A matcher with the operators [=] and [<>] on strings; any other
    operator is malformed. *)
Definition simple_matches (cell cond value : string) : Res bool :=
  if String.eqb cond "=" then Ok (String.eqb cell value)
  else if String.eqb cond "<>" then Ok (negb (String.eqb cell value))
  else Throw (Exp InvalidQuery ("Invalid operator: " +:+ cond)).

Definition people : CSV :=
  mkCSV ["Name"; "Age"] [["Alice"; "30"]; ["Bob"; "25"]; ["Carol"; "30"]].

Definition alice31 : CSV :=
  mkCSV ["Name"; "Age"] [["Alice"; "31"]; ["Bob"; "25"]; ["Carol"; "30"]].

(** The identifier a call of [loadAndGet] works with. *)
Definition resolved (fileOrURL : string) (reg : Registry) : string :=
  if String.eqb fileOrURL "" then recentCSV reg else fileOrURL.

(** A loader to run the registry on: it fails on a stream that is not good
    (a file that does not exist) and otherwise reads the column names, one
    per line, of a table with no rows. *)
Definition simple_load (data : IStream) : Res CSV :=
  if good data then Ok (mkCSV (content data) [])
  else Throw (Exp LoadFailed "Unable to read the stream").

Definition simple_save (t : CSV) : list string := getColumnNames t.

Definition no_trim (s : string) : string := s.

(** Splits nothing: the whole URL is taken as the host. *)
Definition whole_URL (url : string) : string * string * string := (url, "80", "/").

(** No server can be reached. *)
Definition offline (host port : string) : option (string -> list string) := None.

(** A registry that has loaded [people] from a.csv. *)
Definition loaded : Registry := mkRegistry {["a.csv" := people]} "a.csv".

(** Collaborators to run a worker with: nothing to decode, no file to
    serve, and a query that fails. *)
Definition plain_decode (s : string) : string := s.
Definition no_file (path : string) : string := "".
Definition what_of (e : Exn) : string :=
  match e with
  | Exp _ msg => msg
  | out_of_range => "out of range"
  end.
Definition failing_process (query : string) : string * option Exn :=
  ("", Some (Exp NotImplemented "insert is not yet implemented.")).

Definition start (t : CSV) (wk : list CSV) : Exec := mkExec t "" [] wk.

Definition carol31 : CSV :=
  mkCSV ["Name"; "Age"] [["Alice"; "30"]; ["Bob"; "25"]; ["Carol"; "31"]].

(** No other thread writes while a select scans again. *)
Definition no_race (k i : nat) (t : CSV) : CSV := t.

(** The table after another thread has set the age of [name] to [age]. *)
Definition aged (name age : string) (t : CSV) : CSV :=
  csv (snd (updateQuery simple_matches false ["Age"] [age] 0 "=" name (start t []))).

(** Two updates of other threads during a scan: Alice's age is set to 30
    after the scan has left the first row, and Carol's age to 31 after it
    has left the second. *)
Definition two_updates (k i : nat) (t : CSV) : CSV :=
  match i with
  | O => t
  | S O => aged "Alice" "30" t
  | _ => aged "Carol" "31" (aged "Alice" "30" t)
  end.

(** ** What the queries are expected to do *)

Section ExecutorSpec.

Variable matches : string -> string -> string -> Res bool.

(** The where-clause as a predicate on rows: no where-clause is marked by
    the column index -1 and every row satisfies it. *)
Definition rowSatisfies (whereColIdx : Z) (cond value : string) (row : CSVRow) : bool :=
  if whereColIdx =? -1 then true
  else match (cell ← at_ row whereColIdx; matches cell cond value) with
       | Ok b => b
       | Throw _ => false
       end.

Definition matching (whereColIdx : Z) (cond value : string) (t : CSV) : list CSVRow :=
  List.filter (rowSatisfies whereColIdx cond value) (csvRows t).

(** The cell of a row under a column name. *)
Definition cellOf (t : CSV) (row : CSVRow) (colName : string) : string :=
  match (idx ← getColumnIndex t colName; at_ row idx) with
  | Ok c => c
  | Throw _ => ""
  end.

(** One line of a select: the projected cells separated by tabs. *)
Definition rowLine (t : CSV) (colNames : StrVec) (row : CSVRow) : string :=
  print_StrVec "" (map (cellOf t row) colNames) +:+ endl.

Fixpoint lines (t : CSV) (colNames : StrVec) (rows : list CSVRow) : string :=
  match rows with
  | [] => ""
  | row :: rest => rowLine t colNames row +:+ lines t colNames rest
  end.

(** The answer to a select: the header when a row matched, a line per
    matching row in the order of the table, the count. *)
Definition selectReport (t : CSV) (colNames : StrVec) (whereColIdx : Z)
    (cond value : string) : string :=
  let sel := matching whereColIdx cond value t in
  (match sel with [] => "" | _ => print_StrVec "" colNames +:+ endl end)
  +:+ lines t colNames sel
  +:+ to_string (Z.of_nat (length sel)) +:+ " row(s) selected." +:+ endl.

(** The column list a select works with. *)
Definition expand (t : CSV) (colNames : StrVec) : StrVec :=
  match colNames with
  | c0 :: _ => if String.eqb c0 "*" then getColumnNames t else colNames
  | [] => []
  end.

(** The row after the assignments of an update, in the order of the set list. *)
Fixpoint assign (t : CSV) (colNames values : StrVec) (row : CSVRow) : CSVRow :=
  match colNames, values with
  | colName :: cs, v :: vs =>
      match getColumnIndex t colName with
      | Ok idx => assign t cs vs (<[Z.to_nat idx := v]> row)
      | Throw _ => row
      end
  | _, _ => row
  end.

(** The rows after an update: the rows that satisfy the where-clause with
    the assignments made, the others as they were. *)
Definition updatedRows (t : CSV) (colNames values : StrVec) (whereColIdx : Z)
    (cond value : string) : list CSVRow :=
  map (fun row => if rowSatisfies whereColIdx cond value row
                  then assign t colNames values row else row)
      (csvRows t).

Definition updateReport (n : nat) : string :=
  to_string (Z.of_nat n) +:+ " row(s) updated." +:+ endl.

(** The guards taken by one scan of [n] rows, starting at row [i]. *)
Fixpoint rowGuards (i n : nat) : list SyncEvent :=
  match n with
  | O => []
  | S n' => Lock (rowMutex i) :: Unlock (rowMutex i) :: rowGuards (S i) n'
  end.

(** *** Conditions under which a query meets no exception *)

(** The invariant of the data model: every row is as wide as the header. *)
Definition rectangular (t : CSV) : Prop :=
  Forall (fun row : CSVRow => length row = length (getColumnNames t)) (csvRows t).

Definition knownColumns (t : CSV) (colNames : StrVec) : Prop :=
  Forall (fun c => In c (getColumnNames t)) colNames.

(** The where-clause is absent, or names a column of the table with an
    operator the matcher accepts. *)
Definition whereDefined (t : CSV) (whereColIdx : Z) (cond value : string) : Prop :=
  whereColIdx = -1 \/
  (0 <= whereColIdx < Z.of_nat (length (getColumnNames t)) /\
   forall cell, exists b, matches cell cond value = Ok b).

(** The row count fits an [int]. *)
Definition countable (t : CSV) : Prop :=
  Z.of_nat (length (csvRows t)) <= INT_MAX.

(** A table a select of [colNames] scans without an exception. *)
Definition scannable (colNames : StrVec) (whereColIdx : Z) (cond value : string)
    (t : CSV) : Prop :=
  rectangular t /\ knownColumns t colNames /\
  whereDefined t whereColIdx cond value /\ countable t.

(** *** Waiting *)

(** What one round of the waiting loop does when it is woken up on table
    [t]: the mutex is taken, the wait releases it and takes it again, all
    the rows are scanned, the mutex is released. *)
Definition waitRound (t : CSV) : list SyncEvent :=
  [Lock csvMutex; CondWait csvCondVar; CondWake csvCondVar]
  ++ rowGuards 0 (length (csvRows t)) ++ [Unlock csvMutex].

Fixpoint waitRounds (wk : list CSV) : list SyncEvent :=
  match wk with
  | [] => []
  | t :: rest => waitRound t ++ waitRounds rest
  end.

(** The notifications among the synchronisation calls of a run. *)
Definition isNotify (ev : SyncEvent) : bool :=
  match ev with
  | NotifyAll _ | NotifyOne _ => true
  | _ => false
  end.

Definition notifications (evs : list SyncEvent) : list SyncEvent :=
  List.filter isNotify evs.

(** The table after the wake-ups [wk], [t] if there was none. *)
Fixpoint lastTable (t : CSV) (wk : list CSV) : CSV :=
  match wk with
  | [] => t
  | t' :: rest => lastTable t' rest
  end.

(** *** A select that scans again while the other threads write *)

Variable racing : nat -> nat -> CSV -> CSV.

(** The wake-ups [wk], numbered from [k], are in vain: each scan meets no
    exception and reads no row that satisfies the where-clause. *)
Fixpoint fruitless (colNames : StrVec) (whereColIdx : Z) (cond value : string)
    (k : nat) (wk : list CSV) : Prop :=
  match wk with
  | [] => True
  | t :: rest =>
      scannable colNames whereColIdx cond value (seenBy racing k t)
      /\ matching whereColIdx cond value (seenBy racing k t) = []
      /\ fruitless colNames whereColIdx cond value (S k) rest
  end.

(** The table after the scans that follow the wake-ups [wk], numbered from
    [k]; [t] if there was none. *)
Fixpoint tableAfter (k : nat) (t : CSV) (wk : list CSV) : CSV :=
  match wk with
  | [] => t
  | t' :: rest => tableAfter (S k) (afterScan racing k t') rest
  end.

(** The moments of the scan after wake-up [k]: the table the thread is
    woken up on, and the table each time the scan holds a guard. *)
Definition moments (k : nat) (t : CSV) : list CSV :=
  t :: map (fun i => racing k i t) (seq 0 (length (csvRows t))).

(** No other thread writes the table during the scan after wake-up [k]. *)
Definition undisturbed (k : nat) (t : CSV) : Prop :=
  forall i, (i < length (csvRows t))%nat -> racing k i t = t.

End ExecutorSpec.

(** ** Further descriptions of the queries *)

(** Two lists of rows with the same number of rows, each as wide as its
    counterpart. *)
Definition sameWidths (rows rows' : list CSVRow) : Prop :=
  Forall2 (fun r r' : CSVRow => length r = length r') rows rows'.

(** The rows of a table as lines of tab-separated cells. *)
Fixpoint printRows (rows : list CSVRow) : string :=
  match rows with
  | [] => ""
  | row :: rest => print_StrVec "" row +:+ endl +:+ printRows rest
  end.

(** The whole table as a select of all columns and all rows writes it. *)
Definition printTable (t : CSV) : string :=
  (match csvRows t with [] => "" | _ => print_StrVec "" (getColumnNames t) +:+ endl end)
  +:+ printRows (csvRows t)
  +:+ to_string (Z.of_nat (length (csvRows t))) +:+ " row(s) selected." +:+ endl.

(** The set list of an update does not assign the column of its
    where-clause. *)
Definition whereUntouched (t : CSV) (colNames : StrVec) (whereColIdx : Z) : Prop :=
  forall c, In c colNames -> getColumnIndex t c <> Ok whereColIdx.

(** Position [p] of a row is assigned by the set list. *)
Definition assignedAt (t : CSV) (colNames values : StrVec) (p : nat) : Prop :=
  exists k c v idx,
    colNames !! k = Some c /\ values !! k = Some v /\
    getColumnIndex t c = Ok idx /\ Z.to_nat idx = p.

(** ** Further descriptions of the registry and of the workers *)

(** The request [loadFromURL] sends. *)
Definition httpGet (hostName path : string) : string :=
  "GET " +:+ path +:+ " HTTP/1.1" +:+ CR +:+ endl +:+
  "Host: " +:+ hostName +:+ CR +:+ endl +:+
  "Connection: Close" +:+ CR +:+ endl +:+ CR +:+ endl.

(** A line that ends the headers of a response. *)
Definition blankLine (l : string) : Prop := l = "" \/ l = CR.

(** The marker of a query in the path of a request. *)
Definition queryMarker : string := "/sql-air?query=".

(** The body of the response to a query: what the query wrote, and the
    line of its exception when it ended with one. *)
Definition responseBody (what : Exn -> string) (oss : string) (exn : option Exn) : string :=
  match exn with
  | None => oss
  | Some exp => oss +:+ "Error: " +:+ what exp +:+ endl
  end.

(** ** The generator of the employee file (dataPopulate.cpp) *)

(** The results of the calls of [rand_r] and [rand] for one employee:
    [rand_r(&seed1)], [rand_r(&seed2)], [rand_r(&seed3)] for the date of
    birth, [rand()] for the gender and [rand_r(&seed4)] for the number of
    days.  The generators are the C library's; each gives an [int] from 0
    to RAND_MAX. *)
Record Draws := mkDraws {
  yearDraw : Z;
  monthDraw : Z;
  dayDraw : Z;
  genderDraw : Z;
  daysDraw : Z
}.

(** [randomDateOfBirth]; the operator [%] of C++ is [Z.rem]. *)
Definition randomDateOfBirth (r1 r2 r3 : Z) : string :=
  let year := Z.rem r1 51 + 1950 in
  let month := Z.rem r2 12 + 1 in
  let day := Z.rem r3 28 + 1 in
  to_string year +:+ "-" +:+ (if month <? 10 then "0" else "")
  +:+ to_string month +:+ "-" +:+ (if day <? 10 then "0" else "") +:+ to_string day.

Definition randomGender (r : Z) : ascii :=
  if Z.rem r 2 =? 0 then "F"%char else "M"%char.

Definition weekdays : list string :=
  ["Monday"; "Tuesday"; "Wednesday"; "Thursday"; "Friday"].

Definition filename : string := "employee.csv".
Definition numEntries : nat := 1000.

Section Populate.

(** [std::shuffle] with a default-constructed [std::default_random_engine]
    is the C++ library's: what it makes of the vector is a parameter.  The
    engine is constructed anew at each call, so each call shuffles the same
    vector in the same way. *)
Variable shuffle : list string -> list string.

(** The loop [for (int i = 0; i < numDays; ++i)] of [randomDaysAvailable]. *)
Fixpoint daysLoop (days : list string) (numDays : Z) (i fuel : nat) (result : string)
    : string :=
  match fuel with
  | O => result
  | S fuel' =>
      let result := result +:+ nth i days "" in
      let result := if Z.of_nat i <? numDays - 1 then result +:+ "," else result in
      daysLoop days numDays (S i) fuel' result
  end.

Definition randomDaysAvailable (r : Z) : string :=
  let days := shuffle weekdays in
  let numDays := Z.rem r 5 + 1 in
  daysLoop days numDays 0 (Z.to_nat numDays) "".

(** [std::ofstream ofs(filename, std::ios::trunc)]. *)
Definition clearPreviousData (name : string) (files : Files) : Files :=
  <[name := []]> files.

(** A file opened with [std::ios::app] and the lines written to it. *)
Definition appendLines (name : string) (ls : list string) (files : Files) : Files :=
  <[name := default [] (files !! name) ++ ls]> files.

(** One iteration of the loop of [populateData]: the line of employee [i]. *)
Definition employeeLine (i : nat) (d : Draws) : string :=
  let name := "Employee " +:+ to_string (Z.of_nat i + 1) in
  let dateOfBirth := randomDateOfBirth (yearDraw d) (monthDraw d) (dayDraw d) in
  let gender := randomGender (genderDraw d) in
  let daysAvailable := randomDaysAvailable (daysDraw d) in
  name +:+ "," +:+ dateOfBirth +:+ "," +:+ String gender "" +:+ "," +:+ daysAvailable.

Fixpoint populateLoop (draws : nat -> Draws) (i fuel : nat) (written : list string)
    : list string :=
  match fuel with
  | O => written
  | S fuel' => populateLoop draws (S i) fuel' (written ++ [employeeLine i (draws i)])
  end.

(** [populateData]: the value returned, the files and the standard output
    afterwards. *)
Definition populateData (draws : nat -> Draws) (files : Files) (cout : string)
    : Z * Files * string :=
  let files1 := clearPreviousData filename files in
  let written :=
    populateLoop draws 0 numEntries ["Name,Date of Birth,Gender,Days Available"] in
  (0,
   appendLines filename written files1,
   cout +:+ "CSV file '" +:+ filename +:+ "' with " +:+ to_string (Z.of_nat numEntries)
   +:+ " entries has been generated." +:+ endl).

End Populate.

(** The number of occurrences of a character in a string. *)
Fixpoint countChar (c : ascii) (s : string) : nat :=
  match s with
  | EmptyString => 0
  | String x s' => (if Ascii.eqb x c then 1 else 0) + countChar c s'
  end.

(** A number below 100 on two digits. *)
Definition pad2 (n : Z) : string := (if n <? 10 then "0" else "") +:+ to_string n.

(** A shuffle that leaves the vector as it is, and draws that are all 0 but
    for the number of days, which grows with the employee. *)
Definition no_shuffle (days : list string) : list string := days.
Definition some_draws (i : nat) : Draws := mkDraws 0 0 0 0 (Z.of_nat i).

(** ** Further data to run the code on *)

(** The table of people with no one in it. *)
Definition nobody : CSV := mkCSV ["Name"; "Age"] [].

(** A server that answers every request with the column names of [nobody]. *)
Definition one_server (host port : string) : option (string -> list string) :=
  Some (fun request => ["HTTP/1.1 200 OK"; "Server: SimpleServer"; CR; "Name"; "Age"]).

(** A server whose response ends with its headers: no blank line, no body. *)
Definition headers_only_server (host port : string) : option (string -> list string) :=
  Some (fun request => ["HTTP/1.1 200 OK"; "Server: SimpleServer"]).

(** A directory with the file b.csv. *)
Definition one_file : Files := {["b.csv" := ["Name"; "Age"]]}.

(** A registry that has loaded [nobody] from a.csv. *)
Definition loaded_nobody : Registry := mkRegistry {["a.csv" := nobody]} "a.csv".

(** * Proofs *)

(** Closes [knownColumns t cols] on concrete tables and column lists. *)
Ltac known_cols :=
  unfold knownColumns;
  repeat (first [apply List.Forall_nil | apply List.Forall_cons; [simpl; auto 10|]]).

(** ** Strings, integers, results *)

Lemma append_assoc (a b c : string) : (a +:+ b) +:+ c = a +:+ (b +:+ c).
Proof.
  induction a as [|x a IH]; [reflexivity|].
  change (String x ((a +:+ b) +:+ c) = String x (a +:+ (b +:+ c))).
  now rewrite IH.
Qed.

Lemma append_nil_r (a : string) : a +:+ "" = a.
Proof.
  induction a as [|x a IH]; [reflexivity|].
  change (String x (a +:+ "") = String x a). now rewrite IH.
Qed.

Lemma prefix_length (t s : string) :
  String.prefix t s = true -> (String.length t <= String.length s)%nat.
Proof.
  revert s. induction t as [|a t IH]; intros s H; [simpl; lia|].
  destruct s as [|b s]; [discriminate|].
  change (String.prefix (String a t) (String b s))
    with (if ascii_dec a b then String.prefix t s else false) in H.
  destruct (ascii_dec a b); [|discriminate].
  apply IH in H. simpl. lia.
Qed.

Lemma index_length (n m : nat) (t s : string) :
  String.index n t s = Some m -> (String.length t <= String.length s)%nat.
Proof.
  revert n m. induction s as [|b s IH]; intros n m H.
  - destruct n; [|discriminate]. destruct t; [simpl; lia | discriminate].
  - destruct n as [|n]; cbn [String.index] in H.
    + destruct (String.prefix t (String b s)) eqn:Hp; [now apply prefix_length|].
      destruct (String.index 0 t s) as [k|] eqn:Hk; [|discriminate].
      apply IH in Hk. simpl. lia.
    + destruct (String.index n t s) as [k|] eqn:Hk; [|discriminate].
      apply IH in Hk. simpl. lia.
Qed.

(** The two calls of [substr] in [clientThread] stay within the path. *)
Lemma substr_query_in_range (path : string) :
  contains "/sql-air?query=" path = true -> (15 <= String.length path)%nat.
Proof.
  unfold contains. destruct (String.index 0 "/sql-air?query=" path) as [m|] eqn:Hm;
    [|discriminate].
  intros _. apply index_length in Hm. exact Hm.
Qed.

Lemma substr_file_in_range (path : string) :
  negb (String.eqb path "") = true -> (1 <= String.length path)%nat.
Proof. destruct path; [discriminate | simpl; lia]. Qed.

Lemma wrap_int_small (x : Z) : - 2^31 <= x <= INT_MAX -> wrap_int x = x.
Proof.
  unfold wrap_int, INT_MAX. intros H.
  rewrite Z.mod_small by lia. lia.
Qed.

Lemma int_incr_small (n : Z) : 0 <= n < INT_MAX -> int_incr n = n + 1.
Proof. unfold int_incr. intros H. apply wrap_int_small. unfold INT_MAX in *. lia. Qed.

Lemma bind_Ok {A B} (a : A) (f : A -> Res B) : (Ok a ≫= f) = f a.
Proof. reflexivity. Qed.

Lemma bind_Throw {A B} (e : Exn) (f : A -> Res B) : (Throw e ≫= f) = Throw e.
Proof. reflexivity. Qed.

(** ** The table store *)

Lemma find_index_In (name : string) (names : StrVec) (i : Z) :
  In name names ->
  exists k, find_index name names i = Some k /\ i <= k < i + Z.of_nat (length names).
Proof.
  revert i. induction names as [|n rest IH]; intros i Hin; [destruct Hin|].
  simpl find_index. destruct (String.eqb_spec n name) as [->|Hne].
  - exists i. split; [reflexivity|]. simpl length. lia.
  - destruct Hin as [Heq|Hin]; [contradiction|].
    destruct (IH (i + 1) Hin) as (k & Hk & Hr).
    exists k. split; [assumption|]. simpl length. lia.
Qed.

Lemma find_index_not_In (name : string) (names : StrVec) (i : Z) :
  ~ In name names -> find_index name names i = None.
Proof.
  revert i. induction names as [|n rest IH]; intros i Hnin; [reflexivity|].
  simpl. destruct (String.eqb_spec n name) as [->|Hne].
  - exfalso. apply Hnin. now left.
  - apply IH. intros Hin. apply Hnin. now right.
Qed.

Lemma getColumnIndex_known (t : CSV) (c : string) :
  In c (getColumnNames t) ->
  exists k, getColumnIndex t c = Ok k /\ 0 <= k < Z.of_nat (length (getColumnNames t)).
Proof.
  intros Hin. unfold getColumnIndex.
  destruct (find_index_In c (getColumnNames t) 0 Hin) as (k & -> & Hr).
  exists k. split; [reflexivity | lia].
Qed.

Lemma getColumnIndex_unknown (t : CSV) (c : string) :
  ~ In c (getColumnNames t) ->
  exists msg, getColumnIndex t c = Throw (Exp InvalidColumn msg).
Proof.
  intros Hnin. unfold getColumnIndex. rewrite find_index_not_In by assumption.
  eexists. reflexivity.
Qed.

Lemma find_index_Some (name : string) (names : StrVec) (i k : Z) :
  find_index name names i = Some k ->
  i <= k /\ names !! Z.to_nat (k - i) = Some name.
Proof.
  revert i. induction names as [|n rest IH]; intros i H; [discriminate|].
  simpl in H. destruct (String.eqb_spec n name) as [->|Hne].
  - injection H as <-. split; [lia|]. now rewrite Z.sub_diag.
  - destruct (IH (i + 1) H) as [Hle Hl]. split; [lia|].
    replace (Z.to_nat (k - i)) with (S (Z.to_nat (k - (i + 1)))) by lia. exact Hl.
Qed.

Lemma getColumnIndex_Ok (t : CSV) (c : string) (k : Z) :
  getColumnIndex t c = Ok k -> 0 <= k /\ getColumnNames t !! Z.to_nat k = Some c.
Proof.
  unfold getColumnIndex. destruct (find_index c (getColumnNames t) 0) as [k'|] eqn:Hf;
    [|discriminate].
  intros [= <-]. apply find_index_Some in Hf. now rewrite Z.sub_0_r in Hf.
Qed.

Lemma getColumnIndex_inj (t : CSV) (c c' : string) (k : Z) :
  getColumnIndex t c = Ok k -> getColumnIndex t c' = Ok k -> c = c'.
Proof.
  intros H H'. apply getColumnIndex_Ok in H, H'. destruct H as [_ H], H' as [_ H']. congruence.
Qed.

Lemma at_in_range (row : list string) (i : Z) :
  0 <= i < Z.of_nat (length row) -> exists c, at_ row i = Ok c /\ row !! Z.to_nat i = Some c.
Proof.
  intros H. unfold at_.
  replace ((0 <=? i) && (i <? Z.of_nat (length row))) with true
    by (symmetry; apply andb_true_iff; split; [apply Z.leb_le | apply Z.ltb_lt]; lia).
  destruct (lookup_lt_is_Some_2 row (Z.to_nat i)) as [c Hc]; [lia|].
  exists c. now rewrite Hc.
Qed.

Lemma set_at_in_range (row : list string) (i : Z) (v : string) :
  0 <= i < Z.of_nat (length row) -> set_at row i v = Ok (<[Z.to_nat i := v]> row).
Proof.
  intros H. unfold set_at.
  replace ((0 <=? i) && (i <? Z.of_nat (length row))) with true
    by (symmetry; apply andb_true_iff; split; [apply Z.leb_le | apply Z.ltb_lt]; lia).
  reflexivity.
Qed.

(** ** The scan of a select *)

Section SelectFacts.

Variable matches : string -> string -> string -> Res bool.

Lemma selectCells_known (t : CSV) (row : CSVRow) (colNames : StrVec) (rowText delim : string) :
  length row = length (getColumnNames t) ->
  knownColumns t colNames ->
  selectCells t row colNames rowText delim
  = Ok (rowText +:+ print_StrVec delim (map (cellOf t row) colNames)).
Proof.
  intros Hlen Hknown. revert rowText delim.
  induction Hknown as [|c cs Hc Hcs IH]; intros rowText delim.
  - simpl. now rewrite append_nil_r.
  - simpl selectCells.
    destruct (getColumnIndex_known t c Hc) as (k & Hk & Hr).
    destruct (at_in_range row k) as (cell & Hcell & _); [lia|].
    rewrite Hk, bind_Ok, Hcell, bind_Ok, IH.
    simpl map. simpl print_StrVec. unfold cellOf at 2.
    rewrite Hk, bind_Ok, Hcell. now rewrite !append_assoc.
Qed.

(** With distinct column names, the cells of a row under the column names
    of the table are the row itself: the line of a wildcard select is the
    whole row. *)
Lemma wildcard_cells (t : CSV) (row : CSVRow) :
  NoDup (getColumnNames t) ->
  length row = length (getColumnNames t) ->
  map (cellOf t row) (getColumnNames t) = row.
Proof.
  intros Hnd Hlen. apply list_eq. intros i. rewrite list_lookup_fmap.
  destruct (getColumnNames t !! i) as [c|] eqn:Hc; simpl.
  - assert (Hin : In c (getColumnNames t))
      by (apply list_elem_of_In; eapply list_elem_of_lookup_2; exact Hc).
    destruct (getColumnIndex_known t c Hin) as (k & Hk & Hr).
    destruct (getColumnIndex_Ok t c k Hk) as [_ Hl].
    assert (Z.to_nat k = i) by (eapply NoDup_lookup; eassumption).
    destruct (at_in_range row k) as (cell & Hcell & Hrow); [lia|].
    unfold cellOf. rewrite Hk, bind_Ok, Hcell. subst i. now rewrite Hrow.
  - symmetry. apply lookup_ge_None. apply lookup_ge_None in Hc. lia.
Qed.

Lemma rowSatisfies_defined (t : CSV) (whereColIdx : Z) (cond value : string) (row : CSVRow) :
  length row = length (getColumnNames t) ->
  whereDefined matches t whereColIdx cond value ->
  (if whereColIdx =? -1 then Ok true
   else cell ← at_ row whereColIdx; matches cell cond value)
  = Ok (rowSatisfies matches whereColIdx cond value row).
Proof.
  intros Hlen Hw. unfold rowSatisfies.
  destruct (whereColIdx =? -1) eqn:E; [reflexivity|].
  destruct Hw as [->|[Hr Hm]]; [discriminate|].
  destruct (at_in_range row whereColIdx) as (cell & Hcell & _); [lia|].
  rewrite Hcell, !bind_Ok. destruct (Hm cell) as [b ->]. reflexivity.
Qed.

Lemma selectRow_defined (t : CSV) (colNames : StrVec) (whereColIdx : Z)
    (cond value : string) (row : CSVRow) (acc : string * Z) :
  length row = length (getColumnNames t) ->
  knownColumns t colNames ->
  whereDefined matches t whereColIdx cond value ->
  selectRow matches t colNames whereColIdx cond value row acc
  = Ok (if rowSatisfies matches whereColIdx cond value row
        then (fst acc +:+ rowLine t colNames row, int_incr (snd acc))
        else acc).
Proof.
  intros Hlen Hknown Hw. unfold selectRow.
  rewrite (rowSatisfies_defined t) by assumption. rewrite bind_Ok.
  destruct (rowSatisfies matches whereColIdx cond value row); [|reflexivity].
  rewrite selectCells_known by assumption. rewrite bind_Ok.
  unfold rowLine. now rewrite append_assoc.
Qed.

Lemma selectRows_defined (t : CSV) (colNames : StrVec) (whereColIdx : Z)
    (cond value : string) (rows : list CSVRow) (i : nat) (acc : string * Z) :
  Forall (fun row : CSVRow => length row = length (getColumnNames t)) rows ->
  knownColumns t colNames ->
  whereDefined matches t whereColIdx cond value ->
  0 <= snd acc -> snd acc + Z.of_nat (length rows) <= INT_MAX ->
  selectRows matches t colNames whereColIdx cond value rows i acc
  = (Ok (fst acc +:+ lines t colNames (List.filter (rowSatisfies matches whereColIdx cond value) rows),
         snd acc + Z.of_nat (length (List.filter (rowSatisfies matches whereColIdx cond value) rows))),
     rowGuards i (length rows)).
Proof.
  intros Hrect Hknown Hw. revert i acc.
  induction Hrect as [|row rest Hrow Hrest IH]; intros i [txt cnt] H0 Hmax; simpl in H0, Hmax.
  - simpl. now rewrite append_nil_r, Z.add_0_r.
  - simpl selectRows. rewrite (selectRow_defined t) by assumption.
    simpl List.filter.
    destruct (rowSatisfies matches whereColIdx cond value row).
    + rewrite IH; simpl fst; simpl snd.
      * rewrite int_incr_small by lia. simpl lines. simpl length.
        rewrite append_assoc. f_equal. f_equal. f_equal. lia.
      * rewrite int_incr_small by lia. lia.
      * rewrite int_incr_small by lia. lia.
    + rewrite IH; simpl fst; simpl snd; [reflexivity | lia | lia].
Qed.

Lemma selectRowProcess_defined (t : CSV) (colNames : StrVec) (whereColIdx : Z)
    (cond value : string) :
  rectangular t -> knownColumns t colNames ->
  whereDefined matches t whereColIdx cond value -> countable t ->
  selectRowProcess matches t colNames whereColIdx cond value ("", 0)
  = (Ok (lines t colNames (matching matches whereColIdx cond value t),
         Z.of_nat (length (matching matches whereColIdx cond value t))),
     rowGuards 0 (length (csvRows t))).
Proof.
  intros Hrect Hknown Hw Hc. unfold selectRowProcess.
  rewrite selectRows_defined; try assumption.
  - reflexivity.
  - simpl. lia.
Qed.

(** A column that is not found ends the projection of a row. *)
Lemma selectCells_unknown (t : CSV) (row : CSVRow) (known : StrVec) (c : string)
    (rest : StrVec) (e : Exn) (rowText delim : string) :
  length row = length (getColumnNames t) ->
  knownColumns t known ->
  getColumnIndex t c = Throw e ->
  selectCells t row (known ++ c :: rest) rowText delim = Throw e.
Proof.
  intros Hlen Hknown Hc. revert rowText delim.
  induction Hknown as [|k ks Hk Hks IH]; intros rowText delim.
  - simpl. now rewrite Hc.
  - simpl. destruct (getColumnIndex_known t k Hk) as (j & Hj & Hr).
    destruct (at_in_range row j) as (cell & Hcell & _); [lia|].
    rewrite Hj, bind_Ok, Hcell, bind_Ok. apply IH.
Qed.

(** A scan that meets no matching row succeeds whatever the column list. *)
Lemma selectRows_nomatch (t : CSV) (colNames : StrVec) (whereColIdx : Z)
    (cond value : string) (rows : list CSVRow) (i : nat) (acc : string * Z) :
  Forall (fun row : CSVRow => length row = length (getColumnNames t)) rows ->
  whereDefined matches t whereColIdx cond value ->
  List.filter (rowSatisfies matches whereColIdx cond value) rows = [] ->
  selectRows matches t colNames whereColIdx cond value rows i acc
  = (Ok acc, rowGuards i (length rows)).
Proof.
  intros Hrect Hw. revert i.
  induction Hrect as [|row rest Hrow Hrest IH]; intros i Hnone; [reflexivity|].
  simpl in Hnone. simpl selectRows. unfold selectRow.
  rewrite (rowSatisfies_defined t) by assumption. rewrite bind_Ok.
  destruct (rowSatisfies matches whereColIdx cond value row); [discriminate|].
  rewrite IH by assumption. reflexivity.
Qed.

(** A scan that meets a matching row stops there when a column is not found. *)
Lemma selectRows_unknown (t : CSV) (known : StrVec) (c : string) (rest : StrVec) (e : Exn)
    (whereColIdx : Z) (cond value : string) (rows : list CSVRow) (i : nat) (acc : string * Z) :
  Forall (fun row : CSVRow => length row = length (getColumnNames t)) rows ->
  whereDefined matches t whereColIdx cond value ->
  knownColumns t known ->
  getColumnIndex t c = Throw e ->
  List.filter (rowSatisfies matches whereColIdx cond value) rows <> [] ->
  exists n, selectRows matches t (known ++ c :: rest) whereColIdx cond value rows i acc
            = (Throw e, rowGuards i n).
Proof.
  intros Hrect Hw Hknown Hc. revert i.
  induction Hrect as [|row rows' Hrow Hrest IH]; intros i Hsome; [simpl in Hsome; congruence|].
  simpl in Hsome. simpl selectRows. unfold selectRow.
  rewrite (rowSatisfies_defined t) by assumption. rewrite bind_Ok.
  destruct (rowSatisfies matches whereColIdx cond value row).
  - rewrite (selectCells_unknown t row known c rest e) by assumption.
    rewrite bind_Throw. exists 1%nat. reflexivity.
  - destruct (IH (S i) Hsome) as [n Hn]. rewrite Hn. exists (S n). reflexivity.
Qed.

Lemma first_unknown (t : CSV) (colNames : StrVec) :
  Exists (fun c => ~ In c (getColumnNames t)) colNames ->
  exists known c rest,
    colNames = known ++ c :: rest /\ knownColumns t known /\ ~ In c (getColumnNames t).
Proof.
  induction colNames as [|c0 cs IH]; intros Hex; [inversion Hex|].
  destruct (in_dec string_dec c0 (getColumnNames t)) as [Hin|Hnin].
  - assert (Hex' : Exists (fun c => ~ In c (getColumnNames t)) cs)
      by (inversion Hex; subst; [contradiction | assumption]).
    destruct (IH Hex') as (known & c & rest & -> & Hk & Hc).
    exists (c0 :: known), c, rest. repeat split; [constructor; assumption | assumption].
  - exists [], c0, cs. repeat split; [constructor | assumption].
Qed.

End SelectFacts.

(** ** The scan of an update *)

Section UpdateFacts.

Variable matches : string -> string -> string -> Res bool.

Lemma updateCells_defined (t : CSV) (colNames values : StrVec) (i : nat) (row : CSVRow) :
  length row = length (getColumnNames t) ->
  knownColumns t colNames ->
  (i + length colNames <= length values)%nat ->
  updateCells t colNames values i row = (None, assign t colNames (drop i values) row).
Proof.
  intros Hlen Hknown. revert i row Hlen.
  induction Hknown as [|c cs Hc Hcs IH]; intros i row Hlen Hvals.
  - reflexivity.
  - simpl length in Hvals. simpl updateCells.
    destruct (at_in_range values (Z.of_nat i)) as (v & Hv & Hvi); [lia|].
    rewrite Nat2Z.id in Hvi.
    destruct (getColumnIndex_known t c Hc) as (k & Hk & Hr).
    rewrite Hv, bind_Ok, Hk, bind_Ok, set_at_in_range by lia.
    rewrite IH by (rewrite ?length_insert; first [assumption | lia]).
    rewrite (drop_S _ _ _ Hvi). simpl assign. now rewrite Hk.
Qed.

Lemma updateRow_defined (t : CSV) (colNames values : StrVec) (whereColIdx : Z)
    (cond value : string) (row : CSVRow) (rowCount : Z) :
  length row = length (getColumnNames t) ->
  knownColumns t colNames ->
  (length colNames <= length values)%nat ->
  whereDefined matches t whereColIdx cond value ->
  updateRow matches t colNames values whereColIdx cond value row rowCount
  = if rowSatisfies matches whereColIdx cond value row
    then (Ok (int_incr rowCount), assign t colNames values row)
    else (Ok rowCount, row).
Proof.
  intros Hlen Hknown Hvals Hw. unfold updateRow.
  pose proof (rowSatisfies_defined matches t whereColIdx cond value row Hlen Hw) as Hsat.
  destruct (whereColIdx =? -1) eqn:E; simpl negb; cbv iota.
  - injection Hsat as <-. simpl orb. cbv iota.
    now rewrite updateCells_defined by (first [assumption | simpl; lia]).
  - rewrite Hsat. simpl orb.
    destruct (rowSatisfies matches whereColIdx cond value row); [|reflexivity].
    now rewrite updateCells_defined by (first [assumption | simpl; lia]).
Qed.

Lemma updateRows_defined (t : CSV) (colNames values : StrVec) (whereColIdx : Z)
    (cond value : string) (rows : list CSVRow) (i : nat) (rowCount : Z) :
  Forall (fun row : CSVRow => length row = length (getColumnNames t)) rows ->
  knownColumns t colNames ->
  (length colNames <= length values)%nat ->
  whereDefined matches t whereColIdx cond value ->
  0 <= rowCount -> rowCount + Z.of_nat (length rows) <= INT_MAX ->
  updateRows matches t colNames values whereColIdx cond value rows i rowCount
  = (Ok (rowCount
         + Z.of_nat (length (List.filter (rowSatisfies matches whereColIdx cond value) rows))),
     map (fun row => if rowSatisfies matches whereColIdx cond value row
                     then assign t colNames values row else row) rows,
     rowGuards i (length rows)).
Proof.
  intros Hrect Hknown Hvals Hw. revert i rowCount.
  induction Hrect as [|row rest Hrow Hrest IH]; intros i rowCount H0 Hmax.
  - simpl. now rewrite Z.add_0_r.
  - simpl length in Hmax. simpl updateRows.
    rewrite (updateRow_defined t) by assumption. simpl List.filter. simpl map.
    destruct (rowSatisfies matches whereColIdx cond value row).
    + rewrite int_incr_small by lia. rewrite IH by lia.
      simpl length. do 2 f_equal. f_equal. lia.
    + rewrite IH by lia. reflexivity.
Qed.

Lemma updateRowProcess_defined (t : CSV) (colNames values : StrVec) (whereColIdx : Z)
    (cond value : string) :
  rectangular t -> knownColumns t colNames ->
  (length colNames <= length values)%nat ->
  whereDefined matches t whereColIdx cond value -> countable t ->
  updateRowProcess matches t colNames values whereColIdx cond value 0
  = (Ok (Z.of_nat (length (matching matches whereColIdx cond value t))),
     mkCSV (getColumnNames t) (updatedRows matches t colNames values whereColIdx cond value),
     rowGuards 0 (length (csvRows t))).
Proof.
  intros Hrect Hknown Hvals Hw Hc. unfold updateRowProcess.
  rewrite updateRows_defined; try assumption; [reflexivity | lia].
Qed.

Lemma assign_length (t : CSV) (colNames values : StrVec) (row : CSVRow) :
  length (assign t colNames values row) = length row.
Proof.
  revert values row. induction colNames as [|c cs IH]; intros values row; [reflexivity|].
  destruct values as [|v vs]; [reflexivity|]. simpl.
  destruct (getColumnIndex t c); [|reflexivity].
  rewrite IH. apply length_insert.
Qed.

(** The assignments of an update leave alone the cells of the columns that
    are not in the set list. *)
Lemma assign_other (t : CSV) (colNames values : StrVec) (row : CSVRow) (j : nat) :
  (forall c, In c colNames -> getColumnIndex t c <> Ok (Z.of_nat j)) ->
  assign t colNames values row !! j = row !! j.
Proof.
  revert values row. induction colNames as [|c cs IH]; intros values row Hj; [reflexivity|].
  destruct values as [|v vs]; [reflexivity|]. simpl.
  destruct (getColumnIndex t c) as [k|e] eqn:Hk; [|reflexivity].
  rewrite IH by (intros c' Hc'; apply Hj; now right).
  apply list_lookup_insert_ne. intros Heq.
  apply (Hj c); [now left|]. rewrite Hk. f_equal.
  apply getColumnIndex_Ok in Hk. lia.
Qed.

(** A column that is assigned once holds the value given for it. *)
Lemma assign_set (t : CSV) (colNames values : StrVec) (row : CSVRow)
    (k : nat) (c v : string) :
  length row = length (getColumnNames t) ->
  NoDup colNames ->
  knownColumns t colNames ->
  colNames !! k = Some c -> values !! k = Some v ->
  cellOf t (assign t colNames values row) c = v.
Proof.
  intros Hlen Hnd Hknown. revert values row k Hlen.
  induction Hnd as [|c0 cs Hc0 Hnd IH]; intros values row k Hlen Hk Hv; [discriminate|].
  inversion Hknown as [|? ? Hin0 Hknown']; subst.
  destruct values as [|v0 vs]; [destruct k; discriminate|].
  destruct (getColumnIndex_known t c0 Hin0) as (j & Hj & Hr).
  simpl assign. rewrite Hj.
  destruct k as [|k]; simpl in Hk, Hv.
  - injection Hk as ->. injection Hv as ->.
    unfold cellOf. rewrite Hj, bind_Ok.
    destruct (at_in_range (assign t cs vs (<[Z.to_nat j := v]> row)) j) as (cell & Hcell & Hl).
    { rewrite assign_length, length_insert. lia. }
    rewrite Hcell. rewrite assign_other in Hl.
    + rewrite list_lookup_insert_eq in Hl by lia. congruence.
    + intros c' Hc' Heq. rewrite Z2Nat.id in Heq by lia.
      assert (c' = c) by (eapply getColumnIndex_inj; eassumption).
      subst. apply Hc0, list_elem_of_In. assumption.
  - eapply IH; try eassumption. now rewrite length_insert.
Qed.

(** A column that is not found ends the assignments of a row; the cells of
    the columns before it have been written. *)
Lemma updateCells_unknown (t : CSV) (known : StrVec) (c : string) (rest values : StrVec)
    (e : Exn) (i : nat) (row : CSVRow) :
  length row = length (getColumnNames t) ->
  knownColumns t known ->
  getColumnIndex t c = Throw e ->
  (i + length known < length values)%nat ->
  updateCells t (known ++ c :: rest) values i row
  = (Some e, assign t known (drop i values) row).
Proof.
  intros Hlen Hknown Hc. revert i row Hlen.
  induction Hknown as [|k ks Hk Hks IH]; intros i row Hlen Hvals; simpl length in Hvals.
  - simpl updateCells.
    destruct (at_in_range values (Z.of_nat i)) as (v & Hv & _); [lia|].
    now rewrite Hv, bind_Ok, Hc, bind_Throw.
  - simpl updateCells.
    destruct (at_in_range values (Z.of_nat i)) as (v & Hv & Hvi); [lia|].
    rewrite Nat2Z.id in Hvi.
    destruct (getColumnIndex_known t k Hk) as (j & Hj & Hr).
    rewrite Hv, bind_Ok, Hj, bind_Ok, set_at_in_range by lia.
    rewrite IH by (rewrite ?length_insert; first [assumption | lia]).
    rewrite (drop_S _ _ _ Hvi). simpl assign. now rewrite Hj.
Qed.

(** A scan that meets no matching row changes nothing, whatever the set list. *)
Lemma updateRows_nomatch (t : CSV) (colNames values : StrVec) (whereColIdx : Z)
    (cond value : string) (rows : list CSVRow) (i : nat) (rowCount : Z) :
  Forall (fun row : CSVRow => length row = length (getColumnNames t)) rows ->
  whereDefined matches t whereColIdx cond value ->
  List.filter (rowSatisfies matches whereColIdx cond value) rows = [] ->
  updateRows matches t colNames values whereColIdx cond value rows i rowCount
  = (Ok rowCount, rows, rowGuards i (length rows)).
Proof.
  intros Hrect Hw. revert i.
  induction Hrect as [|row rest Hrow Hrest IH]; intros i Hnone; [reflexivity|].
  simpl in Hnone. simpl updateRows. unfold updateRow.
  pose proof (rowSatisfies_defined matches t whereColIdx cond value row Hrow Hw) as Hsat.
  destruct (rowSatisfies matches whereColIdx cond value row) eqn:Hs; [discriminate|].
  destruct (whereColIdx =? -1) eqn:E; [discriminate|].
  simpl negb. cbv iota. rewrite Hsat. simpl orb. cbv iota.
  rewrite IH by assumption. reflexivity.
Qed.

(** A scan that meets a matching row stops there when a column of the set
    list is not found: the rows before it and after it are as they were. *)
Lemma updateRows_unknown (t : CSV) (known : StrVec) (c : string) (rest values : StrVec)
    (e : Exn) (whereColIdx : Z) (cond value : string) (rows : list CSVRow)
    (i : nat) (rowCount : Z) :
  Forall (fun row : CSVRow => length row = length (getColumnNames t)) rows ->
  whereDefined matches t whereColIdx cond value ->
  knownColumns t known ->
  getColumnIndex t c = Throw e ->
  (length known < length values)%nat ->
  List.filter (rowSatisfies matches whereColIdx cond value) rows <> [] ->
  exists n before row after,
    rows = before ++ row :: after
    /\ List.filter (rowSatisfies matches whereColIdx cond value) before = []
    /\ rowSatisfies matches whereColIdx cond value row = true
    /\ updateRows matches t (known ++ c :: rest) values whereColIdx cond value rows i rowCount
       = (Throw e, before ++ assign t known values row :: after, rowGuards i n).
Proof.
  intros Hrect Hw Hknown Hc Hvals. revert i.
  induction Hrect as [|row rows' Hrow Hrest IH]; intros i Hsome; [simpl in Hsome; congruence|].
  simpl in Hsome. simpl updateRows. unfold updateRow.
  pose proof (rowSatisfies_defined matches t whereColIdx cond value row Hrow Hw) as Hsat.
  destruct (rowSatisfies matches whereColIdx cond value row) eqn:Hs.
  - exists 1%nat, [], row, rows'. repeat split; [exact Hs|].
    assert (Hcells : updateCells t (known ++ c :: rest) values 0 row
                     = (Some e, assign t known values row))
      by (apply (updateCells_unknown t known c rest values e 0 row);
          first [assumption | simpl; lia]).
    destruct (whereColIdx =? -1) eqn:E; simpl negb; cbv iota.
    + simpl orb. cbv iota. rewrite Hcells. reflexivity.
    + rewrite Hsat. simpl orb. cbv iota. rewrite Hcells. reflexivity.
  - destruct (IH (S i) Hsome) as (n & before & r & after & -> & Hb & Hr & Heq).
    exists (S n), (row :: before), r, after.
    split; [reflexivity|]. split; [simpl; now rewrite Hs|]. split; [exact Hr|].
    destruct (whereColIdx =? -1) eqn:E; [discriminate|].
    simpl negb. cbv iota. rewrite Hsat. simpl orb. cbv iota.
    rewrite Heq. reflexivity.
Qed.

End UpdateFacts.

(** ** updateQuery *)

Section UpdateQueryFacts.

Variable matches : string -> string -> string -> Res bool.

Lemma updateLoop_nowait (wk : list CSV) (colNames values : StrVec) (whereColIdx : Z)
    (cond value : string) (rowCount : Z) (st : Exec) :
  updateLoop matches wk false colNames values whereColIdx cond value rowCount st
  = (Done rowCount, st).
Proof. destruct wk; simpl; now rewrite andb_false_r. Qed.

Lemma updateLoop_found (wk : list CSV) (mustWait : bool) (colNames values : StrVec)
    (whereColIdx : Z) (cond value : string) (rowCount : Z) (st : Exec) :
  rowCount <> 0 ->
  updateLoop matches wk mustWait colNames values whereColIdx cond value rowCount st
  = (Done rowCount, st).
Proof. intros H. apply Z.eqb_neq in H. destruct wk; simpl; now rewrite H. Qed.

Lemma updatedRows_lookup (t : CSV) (colNames values : StrVec) (whereColIdx : Z)
    (cond value : string) (i : nat) (row : CSVRow) :
  csvRows t !! i = Some row ->
  updatedRows matches t colNames values whereColIdx cond value !! i
  = Some (if rowSatisfies matches whereColIdx cond value row
          then assign t colNames values row else row).
Proof. intros H. unfold updatedRows. now rewrite list_lookup_fmap, H. Qed.

Lemma updatedRows_none (t : CSV) (colNames values : StrVec) (whereColIdx : Z)
    (cond value : string) :
  matching matches whereColIdx cond value t = [] ->
  updatedRows matches t colNames values whereColIdx cond value = csvRows t.
Proof.
  unfold matching, updatedRows. induction (csvRows t) as [|row rows IH]; [reflexivity|].
  simpl. destruct (rowSatisfies matches whereColIdx cond value row); [discriminate|].
  intros H. now rewrite IH.
Qed.

(** The tail of [updateQuery], once the scans have counted [n] rows. *)
Lemma update_tail (n : nat) (st2 : Exec) :
  write (if negb (Z.of_nat n =? 0) then log st2 [NotifyAll csvCondVar] else st2)
        (to_string (Z.of_nat n) +:+ " row(s) updated." +:+ endl)
  = mkExec (csv st2) (os st2 +:+ updateReport n)
      (sync st2 ++ match n with O => [] | S _ => [NotifyAll csvCondVar] end)
      (wakeups st2).
Proof.
  destruct n as [|n].
  - simpl. unfold write. now rewrite app_nil_r.
  - replace (negb (Z.of_nat (S n) =? 0)) with true
      by (symmetry; apply negb_true_iff, Z.eqb_neq; lia).
    reflexivity.
Qed.

(** An update that finds a matching row, or does not wait, returns after
    one scan. *)
Lemma updateQuery_returns (mustWait : bool) (colNames values : StrVec) (whereColIdx : Z)
    (cond value : string) (st : Exec) :
  rectangular (csv st) ->
  knownColumns (csv st) colNames ->
  (length colNames <= length values)%nat ->
  whereDefined matches (csv st) whereColIdx cond value ->
  countable (csv st) ->
  mustWait = false \/ matching matches whereColIdx cond value (csv st) <> [] ->
  updateQuery matches mustWait colNames values whereColIdx cond value st
  = (Done tt,
     mkExec (mkCSV (getColumnNames (csv st))
               (updatedRows matches (csv st) colNames values whereColIdx cond value))
       (os st +:+ updateReport (length (matching matches whereColIdx cond value (csv st))))
       (sync st ++ rowGuards 0 (length (csvRows (csv st)))
        ++ match length (matching matches whereColIdx cond value (csv st)) with
           | O => []
           | S _ => [NotifyAll csvCondVar]
           end)
       (wakeups st)).
Proof.
  intros Hrect Hknown Hvals Hw Hc Hrun.
  unfold updateQuery.
  rewrite (updateRowProcess_defined matches) by assumption.
  assert (Hloop : forall st1,
    updateLoop matches (wakeups st1) mustWait colNames values whereColIdx cond value
      (Z.of_nat (length (matching matches whereColIdx cond value (csv st)))) st1
    = (Done (Z.of_nat (length (matching matches whereColIdx cond value (csv st)))), st1)).
  { intros st1. destruct Hrun as [->|Hsome]; [apply updateLoop_nowait|].
    apply updateLoop_found.
    destruct (matching matches whereColIdx cond value (csv st)); [congruence | simpl length; lia]. }
  rewrite Hloop, update_tail. cbn [csv os sync wakeups].
  now rewrite <- app_assoc.
Qed.

(** C2: an update that finds a matching row, or does not wait, assigns
    the new values in the rows that satisfy the where-clause and in no
    other row, and writes one line with the number of those rows.  In a
    row that satisfies the clause the cells outside the set list stay as
    they were, and a column set once holds its new value. *)
Theorem updateQuery_frame (mustWait : bool) (colNames values : StrVec) (whereColIdx : Z)
    (cond value : string) (st : Exec) :
  rectangular (csv st) ->
  knownColumns (csv st) colNames ->
  (length colNames <= length values)%nat ->
  whereDefined matches (csv st) whereColIdx cond value ->
  countable (csv st) ->
  mustWait = false \/ matching matches whereColIdx cond value (csv st) <> [] ->
  updateQuery matches mustWait colNames values whereColIdx cond value st
  = (Done tt,
     mkExec (mkCSV (getColumnNames (csv st))
               (updatedRows matches (csv st) colNames values whereColIdx cond value))
       (os st +:+ updateReport (length (matching matches whereColIdx cond value (csv st))))
       (sync st ++ rowGuards 0 (length (csvRows (csv st)))
        ++ match length (matching matches whereColIdx cond value (csv st)) with
           | O => []
           | S _ => [NotifyAll csvCondVar]
           end)
       (wakeups st))
  /\
  (forall i row,
     csvRows (csv st) !! i = Some row ->
     rowSatisfies matches whereColIdx cond value row = false ->
     updatedRows matches (csv st) colNames values whereColIdx cond value !! i = Some row)
  /\
  (forall i row,
     csvRows (csv st) !! i = Some row ->
     rowSatisfies matches whereColIdx cond value row = true ->
     exists row',
       updatedRows matches (csv st) colNames values whereColIdx cond value !! i = Some row'
       /\ length row' = length row
       /\ (forall j, (forall c, In c colNames -> getColumnIndex (csv st) c <> Ok (Z.of_nat j)) ->
                     row' !! j = row !! j)
       /\ (NoDup colNames ->
           forall k c v, colNames !! k = Some c -> values !! k = Some v ->
                         cellOf (csv st) row' c = v)).
Proof.
  intros Hrect Hknown Hvals Hw Hc Hrun. split; [|split].
  - now apply updateQuery_returns.
  - intros i row Hi Hsat. rewrite (updatedRows_lookup _ _ _ _ _ _ _ _ Hi). now rewrite Hsat.
  - intros i row Hi Hsat. exists (assign (csv st) colNames values row).
    assert (Hlen : length row = length (getColumnNames (csv st))).
    { unfold rectangular in Hrect. rewrite Forall_forall in Hrect. apply Hrect.
      eapply list_elem_of_lookup_2. exact Hi. }
    split; [|split; [|split]].
    + rewrite (updatedRows_lookup _ _ _ _ _ _ _ _ Hi). now rewrite Hsat.
    + apply assign_length.
    + intros j Hj. now apply assign_other.
    + intros Hnd k c v Hk Hv. now apply (assign_set (csv st) colNames values row k).
Qed.

(** *** Notifications *)

Lemma notifications_app (a b : list SyncEvent) :
  notifications (a ++ b) = notifications a ++ notifications b.
Proof. apply List.filter_app. Qed.

Lemma notifications_rowGuards (i n : nat) : notifications (rowGuards i n) = [].
Proof. revert i. induction n as [|n IH]; intros i; [reflexivity | simpl; apply IH]. Qed.

Lemma notifications_waitRound (t : CSV) : notifications (waitRound t) = [].
Proof.
  unfold waitRound. rewrite !notifications_app, notifications_rowGuards. reflexivity.
Qed.

Lemma notifications_waitRounds (wk : list CSV) : notifications (waitRounds wk) = [].
Proof.
  induction wk as [|t wk IH]; [reflexivity|].
  cbn [waitRounds]. now rewrite notifications_app, notifications_waitRound, IH.
Qed.

(** Whatever the table and the query, a scan only takes row guards. *)
Lemma updateRows_guards (t : CSV) (colNames values : StrVec) (whereColIdx : Z)
    (cond value : string) (rows : list CSVRow) (i : nat) (rowCount : Z) :
  exists n, snd (updateRows matches t colNames values whereColIdx cond value rows i rowCount)
            = rowGuards i n.
Proof.
  revert i rowCount. induction rows as [|row rest IH]; intros i rowCount.
  - exists 0%nat. reflexivity.
  - simpl. destruct (updateRow matches t colNames values whereColIdx cond value row rowCount)
      as [[rc'|e] row'].
    + destruct (IH (S i) rc') as [n Hn].
      destruct (updateRows matches t colNames values whereColIdx cond value rest (S i) rc')
        as [[r rest'] evs]. simpl in Hn. subst evs. exists (S n). reflexivity.
    + exists 1%nat. reflexivity.
Qed.

Lemma updateRowProcess_silent (t : CSV) (colNames values : StrVec) (whereColIdx : Z)
    (cond value : string) (rowCount : Z) :
  notifications (snd (updateRowProcess matches t colNames values whereColIdx cond value rowCount))
  = [].
Proof.
  unfold updateRowProcess.
  destruct (updateRows_guards t colNames values whereColIdx cond value (csvRows t) 0 rowCount)
    as [n Hn].
  destruct (updateRows matches t colNames values whereColIdx cond value (csvRows t) 0 rowCount)
    as [[r rows'] evs]. simpl in *. subst evs. apply notifications_rowGuards.
Qed.

(** The waiting loop sends no notification, however it ends. *)
Lemma updateLoop_silent (wk : list CSV) (mustWait : bool) (colNames values : StrVec)
    (whereColIdx : Z) (cond value : string) (rowCount : Z) (st : Exec) :
  exists evs,
    sync (snd (updateLoop matches wk mustWait colNames values whereColIdx cond value rowCount st))
    = sync st ++ evs /\ notifications evs = [].
Proof.
  revert mustWait rowCount st. induction wk as [|t wk IH]; intros mustWait rowCount st.
  - simpl. destruct ((rowCount =? 0) && mustWait).
    + eexists. split; [reflexivity | reflexivity].
    + exists []. split; [now rewrite app_nil_r | reflexivity].
  - simpl. destruct ((rowCount =? 0) && mustWait).
    + pose proof (updateRowProcess_silent t colNames values whereColIdx cond value rowCount) as Hs.
      destruct (updateRowProcess matches t colNames values whereColIdx cond value rowCount)
        as [[r t'] evs]. simpl in Hs.
      destruct r as [rc'|e].
      * match goal with |- context [updateLoop _ wk ?mw _ _ _ _ _ ?rc ?s] =>
          destruct (IH mw rc s) as (evs' & He & Hn) end.
        rewrite He. cbn [sync].
        eexists. split; [rewrite <- app_assoc; reflexivity|].
        unfold notifications in *.
        rewrite List.filter_app. cbn [List.filter isNotify].
        rewrite List.filter_app, Hs, Hn. reflexivity.
      * cbn [snd sync]. eexists. split; [reflexivity|].
        unfold notifications in *. cbn [List.filter isNotify].
        rewrite List.filter_app, Hs. reflexivity.
    + exists []. split; [now rewrite app_nil_r | reflexivity].
Qed.

(** An update that does not return normally has sent no notification. *)
Lemma updateQuery_silent (mustWait : bool) (colNames values : StrVec) (whereColIdx : Z)
    (cond value : string) (st : Exec) :
  fst (updateQuery matches mustWait colNames values whereColIdx cond value st) <> Done tt ->
  exists evs,
    sync (snd (updateQuery matches mustWait colNames values whereColIdx cond value st))
    = sync st ++ evs /\ notifications evs = [].
Proof.
  unfold updateQuery.
  pose proof (updateRowProcess_silent (csv st) colNames values whereColIdx cond value 0) as Hs.
  destruct (updateRowProcess matches (csv st) colNames values whereColIdx cond value 0)
    as [[r t'] evs]. simpl in Hs.
  destruct r as [rc|e].
  - match goal with |- context [updateLoop _ ?w ?mw _ _ _ _ _ ?rc ?s] =>
      destruct (updateLoop_silent w mw colNames values whereColIdx cond value rc s)
        as (evs' & He & Hn);
      destruct (updateLoop matches w mw colNames values whereColIdx cond value rc s)
        as [[n|e| |] st2] end; cbn [fst snd sync] in *; intros Hnd.
    + congruence.
    + rewrite He. exists (evs ++ evs'). split; [now rewrite app_assoc|].
      now rewrite notifications_app, Hs, Hn.
    + rewrite He. exists (evs ++ evs'). split; [now rewrite app_assoc|].
      now rewrite notifications_app, Hs, Hn.
    + rewrite He. exists (evs ++ evs'). split; [now rewrite app_assoc|].
      now rewrite notifications_app, Hs, Hn.
  - intros _. cbn [snd sync]. exists evs. split; [reflexivity | exact Hs].
Qed.

Lemma updateLoop_skip (colNames values : StrVec) (whereColIdx : Z) (cond value : string)
    (pre rest : list CSV) (st : Exec) :
  (length colNames <= length values)%nat ->
  wakeups st = pre ++ rest ->
  Forall (fun t => scannable matches colNames whereColIdx cond value t /\
                   matching matches whereColIdx cond value t = []) pre ->
  updateLoop matches (pre ++ rest) true colNames values whereColIdx cond value 0 st
  = updateLoop matches rest true colNames values whereColIdx cond value 0
      (mkExec (lastTable (csv st) pre) (os st) (sync st ++ waitRounds pre) rest).
Proof.
  intros Hvals Hwk Hpre. revert st Hwk.
  induction Hpre as [|t pre' [(Hrect & Hknown & Hw & Hc) Hnone] Hpre' IH]; intros st Hwk.
  - simpl in *. rewrite app_nil_r. destruct st; simpl in *; now subst.
  - change ((t :: pre') ++ rest) with (t :: (pre' ++ rest)).
    cbn [updateLoop]. change ((0 =? 0) && true) with true. cbv iota.
    rewrite (updateRowProcess_defined matches) by assumption.
    rewrite Hnone, updatedRows_none by assumption.
    cbn [length Z.of_nat]. change (negb (0 =? 0)) with false. cbv iota.
    rewrite IH by reflexivity.
    cbn [csv os sync wakeups lastTable waitRounds]. unfold waitRound.
    destruct t as [hdr rows]. cbn [getColumnNames csvRows].
    f_equal. f_equal. now rewrite <- !app_assoc.
Qed.



End UpdateQueryFacts.

(** ** selectQuery *)

Section SelectQueryFacts.

Variable matches : string -> string -> string -> Res bool.
Variable racing : nat -> nat -> CSV -> CSV.

Lemma selectLoop_nowait (k : nat) (wk : list CSV) (colNames : StrVec) (whereColIdx : Z)
    (cond value : string) (acc : string * Z) (st : Exec) :
  selectLoop matches racing k wk false colNames whereColIdx cond value acc st = (Done acc, st).
Proof. destruct wk; simpl; now rewrite andb_false_r. Qed.

Lemma selectLoop_found (k : nat) (wk : list CSV) (mustWait : bool) (colNames : StrVec)
    (whereColIdx : Z) (cond value : string) (acc : string * Z) (st : Exec) :
  snd acc <> 0 ->
  selectLoop matches racing k wk mustWait colNames whereColIdx cond value acc st
  = (Done acc, st).
Proof.
  intros H. apply Z.eqb_neq in H. destruct wk; simpl; now rewrite H.
Qed.

(** The scan reads as many rows as the table had when it started. *)
Lemma seenBy_length (k : nat) (t : CSV) :
  length (csvRows (seenBy racing k t)) = length (csvRows t).
Proof. unfold seenBy. cbn [csvRows]. apply length_imap. Qed.

(** When no other thread writes during the scan, the scan reads the table
    it was woken up on. *)
Lemma seenBy_undisturbed (k : nat) (t : CSV) :
  undisturbed racing k t -> seenBy racing k t = t.
Proof.
  intros Hq. unfold seenBy. destruct t as [hdr rows]. cbn [getColumnNames csvRows] in *.
  f_equal. apply list_eq. intros i. rewrite list_lookup_imap.
  destruct (rows !! i) as [row|] eqn:Hi; [|reflexivity].
  cbn. unfold underGuard. rewrite Hq by (eapply lookup_lt_Some; exact Hi).
  cbn [csvRows]. now rewrite Hi.
Qed.

Lemma rowGuards_no_wait (i n : nat) :
  Forall (fun ev => exists k, ev = Lock (rowMutex k) \/ ev = Unlock (rowMutex k)) (rowGuards i n).
Proof.
  revert i. induction n as [|n IH]; intros i; simpl; [constructor|].
  constructor; [eauto|]. constructor; [eauto|]. apply IH.
Qed.

Lemma selectReport_none (t : CSV) (colNames : StrVec) (whereColIdx : Z) (cond value : string) :
  matching matches whereColIdx cond value t = [] ->
  selectReport matches t colNames whereColIdx cond value = "0 row(s) selected." +:+ endl.
Proof. intros H. unfold selectReport. rewrite H. reflexivity. Qed.

(** The tail of [selectBody], once the scans have counted [length sel] rows. *)
Lemma select_tail (t : CSV) (colNames : StrVec) (whereColIdx : Z) (cond value : string)
    (st2 : Exec) :
  let sel := matching matches whereColIdx cond value t in
  write (if negb (Z.of_nat (length sel) =? 0)
         then write st2 (print_StrVec "" colNames +:+ endl) else st2)
        (lines t colNames sel +:+ to_string (Z.of_nat (length sel))
         +:+ " row(s) selected." +:+ endl)
  = write st2 (selectReport matches t colNames whereColIdx cond value).
Proof.
  intros sel. unfold selectReport. fold sel.
  destruct sel as [|r sel']; [reflexivity|].
  replace (negb (Z.of_nat (length (r :: sel')) =? 0)) with true
    by (symmetry; apply negb_true_iff, Z.eqb_neq; simpl length; lia).
  unfold write. simpl. now rewrite !append_assoc.
Qed.

Lemma selectLoop_skip (colNames : StrVec) (whereColIdx : Z) (cond value : string)
    (k : nat) (pre rest : list CSV) (st : Exec) :
  wakeups st = pre ++ rest ->
  fruitless matches racing colNames whereColIdx cond value k pre ->
  selectLoop matches racing k (pre ++ rest) true colNames whereColIdx cond value ("", 0) st
  = selectLoop matches racing (k + length pre) rest true colNames whereColIdx cond value ("", 0)
      (mkExec (tableAfter racing k (csv st) pre) (os st) (sync st ++ waitRounds pre) rest).
Proof.
  revert k st. induction pre as [|t pre' IH]; intros k st Hwk Hpre.
  - simpl in *. rewrite app_nil_r, Nat.add_0_r. destruct st; simpl in *; now subst.
  - destruct Hpre as ((Hrect & Hknown & Hw & Hc) & Hnone & Hpre').
    change ((t :: pre') ++ rest) with (t :: (pre' ++ rest)).
    cbn [selectLoop]. cbn [snd]. change ((0 =? 0) && true) with true. cbv iota.
    rewrite (selectRowProcess_defined matches) by assumption.
    rewrite Hnone. cbn [lines length snd Z.of_nat]. change (negb (0 =? 0)) with false. cbv iota.
    rewrite IH by (try reflexivity; exact Hpre').
    unfold log. cbn [csv os sync wakeups tableAfter waitRounds]. unfold waitRound.
    rewrite seenBy_length, Nat.add_succ_r.
    f_equal. f_equal. now rewrite <- !app_assoc.
Qed.

(** C1: a select that does not wait writes the header (when a row
    matched), one tab-separated line for each row that satisfies the
    where-clause, in the order of the table, and the count line; with no
    matching row it writes the count line for 0 alone.  It leaves the table
    as it is, consumes no wake-up and only takes row guards: it does not
    block. *)
Theorem selectQuery_nowait (colNames : StrVec) (whereColIdx : Z)
    (cond value : string) (st : Exec) :
  colNames <> [] ->
  rectangular (csv st) ->
  knownColumns (csv st) (expand (csv st) colNames) ->
  whereDefined matches (csv st) whereColIdx cond value ->
  countable (csv st) ->
  selectQuery matches racing false colNames whereColIdx cond value st
  = (Done tt,
     mkExec (csv st)
       (os st +:+ selectReport matches (csv st) (expand (csv st) colNames) whereColIdx cond value)
       (sync st ++ rowGuards 0 (length (csvRows (csv st))))
       (wakeups st))
  /\ (matching matches whereColIdx cond value (csv st) = [] ->
      selectReport matches (csv st) (expand (csv st) colNames) whereColIdx cond value
      = "0 row(s) selected." +:+ endl)
  /\ Forall (fun ev => exists k, ev = Lock (rowMutex k) \/ ev = Unlock (rowMutex k))
       (rowGuards 0 (length (csvRows (csv st)))).
Proof.
  intros Hne Hrect Hknown Hw Hc.
  split; [|split; [apply selectReport_none | apply rowGuards_no_wait]].
  destruct colNames as [|c0 rest]; [congruence|].
  unfold selectQuery.
  change (if String.eqb c0 "*" then getColumnNames (csv st) else c0 :: rest)
    with (expand (csv st) (c0 :: rest)).
  unfold selectBody.
  rewrite (selectRowProcess_defined matches) by assumption.
  rewrite selectLoop_nowait.
  rewrite select_tail. reflexivity.
Qed.

(** C3, as the code has it: a select that waits while no row satisfies the
    where-clause does not return.  It takes the table's mutex and waits on
    the table's condition variable, which releases the mutex; each time it
    is woken up it scans the whole table again, reading each row under the
    guard of that row.  As long as a scan reads no matching row it waits
    again, and when woken up for the last time it stays blocked.  It
    returns after the first scan that has read a matching row, with the
    report of exactly the rows that matched as that scan read them.  When
    no other thread writes during that scan, these are the rows that match
    in the table of that moment. *)
Theorem selectQuery_wait (colNames : StrVec) (whereColIdx : Z) (cond value : string)
    (st : Exec) (pre : list CSV) :
  colNames <> [] ->
  scannable matches (expand (csv st) colNames) whereColIdx cond value (csv st) ->
  matching matches whereColIdx cond value (csv st) = [] ->
  fruitless matches racing (expand (csv st) colNames) whereColIdx cond value 0 pre ->
  (wakeups st = pre ->
   selectQuery matches racing true colNames whereColIdx cond value st
   = (Waiting,
      mkExec (tableAfter racing 0 (csv st) pre) (os st)
        (sync st ++ rowGuards 0 (length (csvRows (csv st))) ++ waitRounds pre
         ++ [Lock csvMutex; CondWait csvCondVar])
        []))
  /\
  (forall t1 post,
   wakeups st = pre ++ t1 :: post ->
   scannable matches (expand (csv st) colNames) whereColIdx cond value
     (seenBy racing (length pre) t1) ->
   matching matches whereColIdx cond value (seenBy racing (length pre) t1) <> [] ->
   selectQuery matches racing true colNames whereColIdx cond value st
   = (Done tt,
      mkExec (afterScan racing (length pre) t1)
        (os st +:+ selectReport matches (seenBy racing (length pre) t1)
                     (expand (csv st) colNames) whereColIdx cond value)
        (sync st ++ rowGuards 0 (length (csvRows (csv st))) ++ waitRounds pre ++ waitRound t1)
        post)
   /\ (undisturbed racing (length pre) t1 ->
       Forall (fun t => t = t1) (moments racing (length pre) t1)
       /\ selectReport matches (seenBy racing (length pre) t1)
            (expand (csv st) colNames) whereColIdx cond value
          = selectReport matches t1 (expand (csv st) colNames) whereColIdx cond value)).
Proof.
  intros Hne (Hrect & Hknown & Hw & Hc) Hnone Hpre.
  destruct colNames as [|c0 rest]; [congruence|].
  unfold selectQuery.
  change (if String.eqb c0 "*" then getColumnNames (csv st) else c0 :: rest)
    with (expand (csv st) (c0 :: rest)) in *.
  set (cols := expand (csv st) (c0 :: rest)) in *.
  unfold selectBody.
  rewrite (selectRowProcess_defined matches) by assumption.
  rewrite Hnone. cbn [lines length Z.of_nat].
  split.
  - intros Hwk.
    replace (wakeups (log st (rowGuards 0 (length (csvRows (csv st))))))
      with (pre ++ []) by (rewrite app_nil_r; now rewrite <- Hwk).
    rewrite selectLoop_skip; [|simpl; now rewrite app_nil_r|exact Hpre].
    cbn [selectLoop snd]. change ((0 =? 0) && true) with true. cbv iota.
    unfold log. cbn [csv os sync wakeups]. now rewrite <- !app_assoc.
  - intros t1 post Hwk (Hrect1 & Hknown1 & Hw1 & Hc1) Hsome. split.
    + replace (wakeups (log st (rowGuards 0 (length (csvRows (csv st))))))
        with (pre ++ t1 :: post) by (now rewrite <- Hwk).
      rewrite selectLoop_skip; [|simpl; exact Hwk|exact Hpre].
      cbn [selectLoop snd Nat.add]. change ((0 =? 0) && true) with true. cbv iota.
      rewrite (selectRowProcess_defined matches) by assumption.
      assert (Hn : Z.of_nat (length (matching matches whereColIdx cond value
                                       (seenBy racing (length pre) t1))) <> 0).
      { destruct (matching matches whereColIdx cond value (seenBy racing (length pre) t1));
          [congruence | simpl length; lia]. }
      rewrite selectLoop_found by exact Hn.
      rewrite select_tail.
      unfold log, write, waitRound. cbn [csv os sync wakeups].
      rewrite seenBy_length.
      f_equal. f_equal. now rewrite <- !app_assoc.
    + intros Hq. split; [|now rewrite seenBy_undisturbed].
      unfold moments. constructor; [reflexivity|].
      apply List.Forall_forall. intros t Ht. apply in_map_iff in Ht.
      destruct Ht as (i & <- & Hi). apply in_seq in Hi. apply Hq. lia.
Qed.

(** A select of a column list with a name that is not in the header, on a
    table with a matching row: the exception of the lookup leaves the call,
    nothing has been written and the table is as it was. *)
Lemma selectBody_unknown (mustWait : bool) (known : StrVec) (c : string) (rest : StrVec)
    (e : Exn) (whereColIdx : Z) (cond value : string) (st : Exec) :
  rectangular (csv st) ->
  whereDefined matches (csv st) whereColIdx cond value ->
  knownColumns (csv st) known ->
  getColumnIndex (csv st) c = Throw e ->
  matching matches whereColIdx cond value (csv st) <> [] ->
  exists n,
    selectBody matches racing mustWait (known ++ c :: rest) whereColIdx cond value st
    = (Raised e, mkExec (csv st) (os st) (sync st ++ rowGuards 0 n) (wakeups st)).
Proof.
  intros Hrect Hw Hknown Hc Hsome.
  destruct (selectRows_unknown matches (csv st) known c rest e whereColIdx cond value
              (csvRows (csv st)) 0 ("", 0) Hrect Hw Hknown Hc Hsome) as [n Hn].
  exists n. unfold selectBody, selectRowProcess. rewrite Hn. reflexivity.
Qed.

(** C10: the column list of a select is replaced by the column names of
    the table exactly when its first element is the wildcard, and then as
    a whole.  A wildcard further down the list is looked up like any other
    name: when the table has no column of that name and a row matches, the
    select ends with the exception of that lookup. *)
Theorem selectQuery_wildcard (mustWait : bool) (c0 : string) (rest : StrVec)
    (whereColIdx : Z) (cond value : string) (st : Exec) :
  selectQuery matches racing mustWait ("*" :: rest) whereColIdx cond value st
  = selectBody matches racing mustWait (getColumnNames (csv st)) whereColIdx cond value st
  /\
  (c0 <> "*" ->
   selectQuery matches racing mustWait (c0 :: rest) whereColIdx cond value st
   = selectBody matches racing mustWait (c0 :: rest) whereColIdx cond value st)
  /\
  (forall known rest' e,
   c0 <> "*" ->
   rest = known ++ "*" :: rest' ->
   knownColumns (csv st) (c0 :: known) ->
   getColumnIndex (csv st) "*" = Throw e ->
   rectangular (csv st) ->
   whereDefined matches (csv st) whereColIdx cond value ->
   matching matches whereColIdx cond value (csv st) <> [] ->
   exists n,
     selectQuery matches racing mustWait (c0 :: rest) whereColIdx cond value st
     = (Raised e, mkExec (csv st) (os st) (sync st ++ rowGuards 0 n) (wakeups st))).
Proof.
  split; [reflexivity|].
  assert (Hsecond : c0 <> "*" ->
    selectQuery matches racing mustWait (c0 :: rest) whereColIdx cond value st
    = selectBody matches racing mustWait (c0 :: rest) whereColIdx cond value st).
  { intros Hc0. unfold selectQuery. apply String.eqb_neq in Hc0. now rewrite Hc0. }
  split; [exact Hsecond|].
  intros known rest' e Hc0 -> Hknown He Hrect Hw Hsome.
  rewrite (Hsecond Hc0).
  change (c0 :: known ++ "*" :: rest') with ((c0 :: known) ++ "*" :: rest').
  now apply selectBody_unknown.
Qed.

End SelectQueryFacts.

(** ** Column names that are not in the header *)

Section InvalidColumnFacts.

Variable matches : string -> string -> string -> Res bool.
Variable racing : nat -> nat -> CSV -> CSV.

Lemma selectQuery_expand (mustWait : bool) (colNames : StrVec) (whereColIdx : Z)
    (cond value : string) (st : Exec) :
  colNames <> [] ->
  selectQuery matches racing mustWait colNames whereColIdx cond value st
  = selectBody matches racing mustWait (expand (csv st) colNames) whereColIdx cond value st.
Proof. destruct colNames; [congruence | reflexivity]. Qed.

(** C8, as the code has it.  The column of a where-clause is looked up by
    name before the query is called: a name that is not in the header ends
    the query with InvalidColumn at once, with nothing written and the table
    as it was.  A name of the column list of a select, or of the set list
    of an update, is looked up when the first row that satisfies the
    where-clause is reached.  On a table whose rows are as wide as the
    header, with a where-clause the matcher accepts: with such a row, a
    select ends with InvalidColumn, has written nothing and leaves the
    table as it was; an update that has a value for each of its columns
    ends with InvalidColumn, has written nothing and has only taken row
    guards, every row but that first matching one is as it was, and that
    row has been assigned the columns listed before the unknown one.  With
    no such row, a query that does not wait returns normally with the
    count line for 0. *)
Theorem invalid_column_on_match (mustWait : bool) (colNames values : StrVec)
    (whereColIdx : Z) (cond value : string) (st : Exec) :
  (rectangular (csv st) ->
   whereDefined matches (csv st) whereColIdx cond value ->
   colNames <> [] ->
   Exists (fun c => ~ In c (getColumnNames (csv st))) (expand (csv st) colNames) ->
   (matching matches whereColIdx cond value (csv st) <> [] ->
    exists msg n,
      selectQuery matches racing mustWait colNames whereColIdx cond value st
      = (Raised (Exp InvalidColumn msg),
         mkExec (csv st) (os st) (sync st ++ rowGuards 0 n) (wakeups st)))
   /\
   (matching matches whereColIdx cond value (csv st) = [] ->
    selectQuery matches racing false colNames whereColIdx cond value st
    = (Done tt,
       mkExec (csv st) (os st +:+ "0 row(s) selected." +:+ endl)
         (sync st ++ rowGuards 0 (length (csvRows (csv st)))) (wakeups st))))
  /\
  (rectangular (csv st) ->
   whereDefined matches (csv st) whereColIdx cond value ->
   Exists (fun c => ~ In c (getColumnNames (csv st))) colNames ->
   (length colNames <= length values)%nat ->
   (matching matches whereColIdx cond value (csv st) <> [] ->
    exists msg n before row after known c rest,
      csvRows (csv st) = before ++ row :: after
      /\ List.filter (rowSatisfies matches whereColIdx cond value) before = []
      /\ rowSatisfies matches whereColIdx cond value row = true
      /\ colNames = known ++ c :: rest
      /\ knownColumns (csv st) known
      /\ ~ In c (getColumnNames (csv st))
      /\ updateQuery matches mustWait colNames values whereColIdx cond value st
         = (Raised (Exp InvalidColumn msg),
            mkExec (mkCSV (getColumnNames (csv st))
                      (before ++ assign (csv st) known values row :: after))
              (os st) (sync st ++ rowGuards 0 n) (wakeups st)))
   /\
   (matching matches whereColIdx cond value (csv st) = [] ->
    updateQuery matches false colNames values whereColIdx cond value st
    = (Done tt,
       mkExec (csv st) (os st +:+ "0 row(s) updated." +:+ endl)
         (sync st ++ rowGuards 0 (length (csvRows (csv st)))) (wakeups st))))
  /\
  (forall whereColumn,
     ~ In whereColumn (getColumnNames (csv st)) ->
     exists msg,
       selectWhere matches racing mustWait colNames (Some whereColumn) cond value st
       = (Raised (Exp InvalidColumn msg), st)
       /\ updateWhere matches mustWait colNames values (Some whereColumn) cond value st
          = (Raised (Exp InvalidColumn msg), st))
  /\
  (forall whereColumn,
     whereColumnIndex (csv st) whereColumn = Ok whereColIdx ->
     (whereColIdx = -1 \/ 0 <= whereColIdx < Z.of_nat (length (getColumnNames (csv st))))
     /\ selectWhere matches racing mustWait colNames whereColumn cond value st
        = selectQuery matches racing mustWait colNames whereColIdx cond value st
     /\ updateWhere matches mustWait colNames values whereColumn cond value st
        = updateQuery matches mustWait colNames values whereColIdx cond value st).
Proof.
  split; [|split; [|split]].
  - intros Hrect Hw Hne Hex. rewrite !selectQuery_expand by assumption. split.
    + intros Hsome.
      destruct (first_unknown (csv st) _ Hex) as (known & c & rest & -> & Hknown & Hc).
      destruct (getColumnIndex_unknown (csv st) c Hc) as [msg Hmsg].
      destruct (selectBody_unknown matches racing mustWait known c rest _ whereColIdx cond value st
                  Hrect Hw Hknown Hmsg Hsome) as [n Hn].
      exists msg, n. exact Hn.
    + intros Hnone. unfold selectBody, selectRowProcess.
      rewrite selectRows_nomatch by assumption.
      rewrite selectLoop_nowait. reflexivity.
  - intros Hrect Hw Hex Hvals. split.
    + intros Hsome.
      destruct (first_unknown (csv st) _ Hex) as (known & c & rest & -> & Hknown & Hc).
      destruct (getColumnIndex_unknown (csv st) c Hc) as [msg Hmsg].
      rewrite length_app in Hvals. simpl length in Hvals.
      destruct (updateRows_unknown matches (csv st) known c rest values _ whereColIdx cond value
                  (csvRows (csv st)) 0 0 Hrect Hw Hknown Hmsg ltac:(lia) Hsome)
        as (n & before & row & after & Hrows & Hb & Hr & Heq).
      exists msg, n, before, row, after, known, c, rest.
      split; [exact Hrows|]. split; [exact Hb|]. split; [exact Hr|].
      split; [reflexivity|]. split; [exact Hknown|]. split; [exact Hc|].
      unfold updateQuery, updateRowProcess. rewrite Heq. reflexivity.
    + intros Hnone. unfold updateQuery, updateRowProcess.
      rewrite updateRows_nomatch by assumption.
      rewrite updateLoop_nowait.
      destruct st as [[hdr rows] o sy wk]. reflexivity.
  - intros whereColumn Hnin.
    destruct (getColumnIndex_unknown (csv st) whereColumn Hnin) as [msg Hmsg].
    exists msg. unfold selectWhere, updateWhere, whereColumnIndex. rewrite Hmsg. auto.
  - intros whereColumn Hidx. split.
    + destruct whereColumn as [c|]; cbn [whereColumnIndex] in Hidx.
      * right. destruct (getColumnIndex_Ok (csv st) c whereColIdx Hidx) as [H0 Hl].
        apply lookup_lt_Some in Hl. lia.
      * left. congruence.
    + unfold selectWhere, updateWhere. rewrite Hidx. auto.
Qed.

End InvalidColumnFacts.

(** C8 as it is stated does not hold.  The first select names a column
    that the table does not have, and returns normally: no row satisfies
    its where-clause.  The first update has written Alice's age when the
    lookup of its second column throws.  The second update has no value for
    its unknown column, and ends with out_of_range before the column is
    looked up. *)
Lemma invalid_column_unnoticed :
  ~ In "Bogus" (getColumnNames people)
  /\ selectQuery simple_matches no_race false ["Bogus"] 1 "=" "31" (start people [])
     = (Done tt, mkExec people ("0 row(s) selected." +:+ endl) (rowGuards 0 3) [])
  /\ updateQuery simple_matches false ["Age"; "Bogus"] ["31"; "x"] 1 "=" "30" (start people [])
     = (Raised (Exp InvalidColumn "Invalid column name: Bogus"),
        mkExec alice31 "" (rowGuards 0 1) [])
  /\ updateQuery simple_matches false ["Bogus"] [] 1 "=" "30" (start people [])
     = (Raised out_of_range, mkExec people "" (rowGuards 0 1) []).
Proof.
  split; [|repeat split].
  simpl. intros [H|[H|[]]]; discriminate.
Qed.

Lemma invalid_column_on_match_witness :
  (exists msg n,
     selectQuery simple_matches no_race false ["Name"; "Bogus"] 1 "=" "30" (start people [])
     = (Raised (Exp InvalidColumn msg), mkExec people "" (rowGuards 0 n) []))
  /\
  (exists msg n before row after known c rest,
     csvRows people = before ++ row :: after
     /\ List.filter (rowSatisfies simple_matches 1 "=" "30") before = []
     /\ rowSatisfies simple_matches 1 "=" "30" row = true
     /\ ["Age"; "Bogus"] = known ++ c :: rest
     /\ knownColumns people known
     /\ ~ In c (getColumnNames people)
     /\ updateQuery simple_matches false ["Age"; "Bogus"] ["31"; "x"] 1 "=" "30" (start people [])
        = (Raised (Exp InvalidColumn msg),
           mkExec (mkCSV (getColumnNames people) (before ++ assign people known ["31"; "x"] row :: after))
             "" (rowGuards 0 n) []))
  /\
  (exists msg,
     selectWhere simple_matches no_race false ["Name"] (Some "Bogus") "=" "30" (start people [])
     = (Raised (Exp InvalidColumn msg), start people [])
     /\ updateWhere simple_matches false ["Name"] ["31"] (Some "Bogus") "=" "30" (start people [])
        = (Raised (Exp InvalidColumn msg), start people [])).
Proof.
  assert (Hrect : rectangular people) by repeat constructor.
  assert (Hw : whereDefined simple_matches people 1 "=" "30")
    by (right; split; [simpl; lia | intros cell; eexists; reflexivity]).
  assert (Hbogus : ~ In "Bogus" (getColumnNames people))
    by (simpl; intros [H|[H|[]]]; discriminate).
  split; [|split].
  - destruct (invalid_column_on_match simple_matches no_race false ["Name"; "Bogus"] [] 1 "=" "30"
                (start people [])) as [H _].
    destruct (H Hrect Hw) as [H' _].
    + discriminate.
    + apply Exists_cons_tl, Exists_cons_hd. exact Hbogus.
    + apply H'. discriminate.
  - destruct (invalid_column_on_match simple_matches no_race false ["Age"; "Bogus"] ["31"; "x"]
                1 "=" "30" (start people [])) as (_ & H & _).
    destruct (H Hrect Hw) as [H' _].
    + apply Exists_cons_tl, Exists_cons_hd. exact Hbogus.
    + simpl. lia.
    + apply H'. discriminate.
  - destruct (invalid_column_on_match simple_matches no_race false ["Name"] ["31"]
                1 "=" "30" (start people [])) as (_ & _ & H & _).
    exact (H "Bogus" Hbogus).
Defined.


(** ** The queries on a table of three people *)

Lemma selectQuery_nowait_witness :
  selectQuery simple_matches no_race false ["Name"] 1 "=" "30" (start people [])
  = (Done tt,
     mkExec people
       ("Name" +:+ endl +:+ "Alice" +:+ endl +:+ "Carol" +:+ endl +:+ "2 row(s) selected." +:+ endl)
       (rowGuards 0 3) []).
Proof.
  pose proof (selectQuery_nowait simple_matches no_race ["Name"] 1 "=" "30" (start people [])) as H.
  destruct H as [H _].
  - discriminate.
  - repeat constructor.
  - repeat constructor.
  - right. split; [simpl; lia|]. intros cell. eexists. reflexivity.
  - unfold countable, INT_MAX. simpl. lia.
  - rewrite H. reflexivity.
Defined.

Lemma people_scannable (colNames : StrVec) (whereColIdx : Z) (cond value : string) (t : CSV) :
  rectangular t -> knownColumns t colNames ->
  0 <= whereColIdx < Z.of_nat (length (getColumnNames t)) ->
  cond = "=" -> (length (csvRows t) <= 3)%nat ->
  scannable simple_matches colNames whereColIdx cond value t.
Proof.
  intros Hr Hk Hw -> Hc. repeat split; try assumption.
  - right. split; [assumption|]. intros cell. eexists. reflexivity.
  - unfold countable, INT_MAX. lia.
Qed.

Lemma selectQuery_wait_witness :
  selectQuery simple_matches no_race true ["Name"] 1 "=" "31" (start people [])
  = (Waiting,
     mkExec people "" (rowGuards 0 3 ++ [Lock csvMutex; CondWait csvCondVar]) [])
  /\
  selectQuery simple_matches no_race true ["Name"] 1 "=" "31" (start people [people; alice31; people])
  = (Done tt,
     mkExec alice31 ("Name" +:+ endl +:+ "Alice" +:+ endl +:+ "1 row(s) selected." +:+ endl)
       (rowGuards 0 3 ++ waitRound people ++ waitRound alice31) [people])
  /\
  selectQuery simple_matches two_updates true ["Name"] 1 "=" "31" (start people [alice31])
  = (Done tt,
     mkExec carol31
       ("Name" +:+ endl +:+ "Alice" +:+ endl +:+ "Carol" +:+ endl +:+ "2 row(s) selected." +:+ endl)
       (rowGuards 0 3 ++ waitRound alice31) []).
Proof.
  assert (Hs : forall t, rectangular t -> knownColumns t ["Name"] ->
                 length (getColumnNames t) = 2%nat -> (length (csvRows t) <= 3)%nat ->
                 scannable simple_matches ["Name"] 1 "=" "31" t).
  { intros t Hr Hk Hh Hn. apply people_scannable; try assumption; [lia | reflexivity]. }
  assert (Hp : scannable simple_matches ["Name"] 1 "=" "31" people)
    by (apply Hs; [repeat constructor | repeat constructor | reflexivity | simpl; lia]).
  split; [|split].
  - destruct (selectQuery_wait simple_matches no_race ["Name"] 1 "=" "31" (start people []) [])
      as [H _]; [discriminate | exact Hp | reflexivity | exact I |].
    rewrite H by reflexivity. reflexivity.
  - destruct (selectQuery_wait simple_matches no_race ["Name"] 1 "=" "31"
                (start people [people; alice31; people]) [people])
      as [_ H]; [discriminate | exact Hp | reflexivity
                 | split; [exact Hp | split; [reflexivity | exact I]] |].
    destruct (H alice31 [people]) as [Hrun _];
      [reflexivity
      | apply Hs; [repeat constructor | repeat constructor | reflexivity | simpl; lia]
      | discriminate |].
    rewrite Hrun. reflexivity.
  - destruct (selectQuery_wait simple_matches two_updates ["Name"] 1 "=" "31"
                (start people [alice31]) [])
      as [_ H]; [discriminate | exact Hp | reflexivity | exact I |].
    destruct (H alice31 []) as [Hrun _];
      [reflexivity
      | apply Hs; [repeat constructor | repeat constructor | reflexivity | simpl; lia]
      | discriminate |].
    rewrite Hrun. reflexivity.
Defined.

(** C3 as it is stated does not hold: two other threads update a row each
    while the select scans again, and the select returns Alice and Carol,
    who are not the rows that satisfy the where-clause at any moment of the
    run: not in the table the call was given, not in the table it was woken
    up on, not in the table under any of its three guards. *)
Lemma waiting_select_mixes_moments :
  selectQuery simple_matches two_updates true ["Name"] 1 "=" "31" (start people [alice31])
  = (Done tt,
     mkExec carol31
       ("Name" +:+ endl +:+ "Alice" +:+ endl +:+ "Carol" +:+ endl +:+ "2 row(s) selected." +:+ endl)
       (rowGuards 0 3 ++ waitRound alice31) [])
  /\ moments two_updates 0 alice31 = [alice31; alice31; people; carol31]
  /\ Forall (fun t => selectReport simple_matches t ["Name"] 1 "=" "31"
                      <> "Name" +:+ endl +:+ "Alice" +:+ endl +:+ "Carol" +:+ endl
                         +:+ "2 row(s) selected." +:+ endl)
       (people :: moments two_updates 0 alice31).
Proof.
  split; [reflexivity|]. split; [reflexivity|].
  repeat constructor; vm_compute; discriminate.
Qed.

Lemma selectQuery_wildcard_witness :
  selectQuery simple_matches no_race false ["*"; "Bogus"] 1 "=" "30" (start people [])
  = selectBody simple_matches no_race false ["Name"; "Age"] 1 "=" "30" (start people [])
  /\
  selectQuery simple_matches no_race false ["Name"; "*"] 1 "=" "30" (start people [])
  = selectBody simple_matches no_race false ["Name"; "*"] 1 "=" "30" (start people [])
  /\
  exists n,
    selectQuery simple_matches no_race false ["Name"; "*"] 1 "=" "30" (start people [])
    = (Raised (Exp InvalidColumn "Invalid column name: *"),
       mkExec people "" (rowGuards 0 n) []).
Proof.
  split; [|split].
  - apply (selectQuery_wildcard simple_matches no_race false "Name" ["Bogus"] 1 "=" "30" (start people [])).
  - apply (selectQuery_wildcard simple_matches no_race false "Name" ["*"] 1 "=" "30" (start people [])).
    discriminate.
  - destruct (selectQuery_wildcard simple_matches no_race false "Name" ["*"] 1 "=" "30" (start people []))
      as (_ & _ & H).
    apply (H [] [] (Exp InvalidColumn "Invalid column name: *")).
    + discriminate.
    + reflexivity.
    + repeat constructor.
    + reflexivity.
    + repeat constructor.
    + right. split; [simpl; lia|]. intros cell. eexists. reflexivity.
    + discriminate.
Defined.

Lemma updateQuery_frame_witness :
  updateQuery simple_matches false ["Age"] ["31"] 0 "=" "Alice" (start people [])
  = (Done tt,
     mkExec alice31 ("1 row(s) updated." +:+ endl)
       (rowGuards 0 3 ++ [NotifyAll csvCondVar]) []).
Proof.
  destruct (updateQuery_frame simple_matches false ["Age"] ["31"] 0 "=" "Alice" (start people []))
    as [H _].
  - repeat constructor.
  - known_cols.
  - simpl. lia.
  - right. split; [simpl; lia|]. intros cell. eexists. reflexivity.
  - unfold countable, INT_MAX. simpl. lia.
  - now left.
  - rewrite H. reflexivity.
Defined.



(** ** The table registry *)

Section RegistryFacts.

Variable csvLoad : IStream -> Res CSV.
Variable csvSave : CSV -> list string.
Variable trim : string -> string.
Variable breakDownURL : string -> string * string * string.
Variable network : string -> string -> option (string -> list string).

(** C6, as the code has it: when the load of an identifier fails, the
    exception of the load leaves [loadAndGet] and no table has been put in
    the map, but the identifier is recorded as the most recently used one:
    that is done before the map is looked up.  The loads that fail in
    [loadFromURL] are the connection that cannot be made and the status
    line without 200. *)
Theorem loadAndGet_load_fails (files : Files) (fileOrURL : string) (reg : Registry) (e : Exn) :
  inMemoryCSV reg !! resolved fileOrURL reg = None ->
  loadCSV csvLoad trim breakDownURL network files (resolved fileOrURL reg) = Throw e ->
  loadAndGet csvLoad trim breakDownURL network files fileOrURL reg
  = (Throw e, mkRegistry (inMemoryCSV reg) (resolved fileOrURL reg))
  /\ (forall host port path,
        network host port = None ->
        exists msg, loadFromURL csvLoad trim network host port path = Throw (Exp LoadFailed msg))
  /\ (forall host port path server,
        network host port = Some server ->
        (forall request, contains "200" (hd "" (server request)) = false) ->
        exists msg, loadFromURL csvLoad trim network host port path = Throw (Exp LoadFailed msg)).
Proof.
  intros Hmiss Hload. split; [|split].
  - unfold loadAndGet. fold (resolved fileOrURL reg). cbn [inMemoryCSV recentCSV].
    now rewrite Hmiss, Hload.
  - intros host port path Hnet. unfold loadFromURL. rewrite Hnet. eexists. reflexivity.
  - intros host port path server Hnet Hstatus. unfold loadFromURL. rewrite Hnet.
    cbv zeta. rewrite Hstatus. eexists. reflexivity.
Qed.

(** A table that is in memory is returned without a load. *)
Lemma loadAndGet_hit (files : Files) (fileOrURL : string) (reg : Registry) (t : CSV) :
  inMemoryCSV reg !! resolved fileOrURL reg = Some t ->
  loadAndGet csvLoad trim breakDownURL network files fileOrURL reg
  = (Ok (resolved fileOrURL reg), mkRegistry (inMemoryCSV reg) (resolved fileOrURL reg)).
Proof.
  intros Hhit. unfold loadAndGet. fold (resolved fileOrURL reg). cbn [inMemoryCSV recentCSV].
  now rewrite Hhit.
Qed.

(** After a call that returned, the table it returned is in memory under
    the most recently used identifier. *)
Lemma loadAndGet_Ok (files : Files) (fileOrURL : string) (reg reg1 : Registry) (ref : string) :
  loadAndGet csvLoad trim breakDownURL network files fileOrURL reg = (Ok ref, reg1) ->
  recentCSV reg1 = ref /\ is_Some (inMemoryCSV reg1 !! ref).
Proof.
  unfold loadAndGet. fold (resolved fileOrURL reg). cbn [inMemoryCSV recentCSV].
  destruct (inMemoryCSV reg !! resolved fileOrURL reg) as [t|] eqn:Hl.
  - intros [= <- <-]. cbn [inMemoryCSV recentCSV]. rewrite Hl. eauto.
  - destruct (loadCSV csvLoad trim breakDownURL network files (resolved fileOrURL reg))
      as [t|e]; [|discriminate].
    intros [= <- <-]. cbn [inMemoryCSV recentCSV]. rewrite lookup_insert_eq. eauto.
Qed.

(** C7, as the code has it: the empty identifier stands for the most
    recently used one, so that after a call for X that returned, a call
    with the empty identifier returns the same entry of the map and leaves
    the registry as it is.  When no identifier has been recorded, the
    empty identifier is loaded as a local file like any other name, and
    the exception that leaves the call, if one does, is the one of that
    load. *)
Theorem loadAndGet_empty_identifier (files : Files) (X : string) (reg reg1 : Registry)
    (ref : string) :
  (loadAndGet csvLoad trim breakDownURL network files X reg = (Ok ref, reg1) ->
   loadAndGet csvLoad trim breakDownURL network files "" reg1 = (Ok ref, reg1)
   /\ is_Some (deref reg1 ref))
  /\
  (recentCSV reg = "" -> inMemoryCSV reg !! "" = None ->
   loadAndGet csvLoad trim breakDownURL network files "" reg
   = match csvLoad (ifstream files "") with
     | Throw e => (Throw e, reg)
     | Ok t => (Ok "", mkRegistry (<["" := t]> (inMemoryCSV reg)) "")
     end).
Proof.
  split.
  - intros Hok. destruct (loadAndGet_Ok files X reg reg1 ref Hok) as [Hrecent [t Ht]].
    split; [|unfold deref; eauto].
    rewrite (loadAndGet_hit files "" reg1 t); unfold resolved; cbn; rewrite Hrecent;
      [|exact Ht].
    destruct reg1 as [m r]. cbn in *. now subst.
  - intros Hrecent Hmiss. unfold loadAndGet. cbn [String.eqb]. cbv zeta.
    cbn [inMemoryCSV recentCSV]. rewrite Hrecent, Hmiss.
    unfold loadCSV. change (starts_with "http://" "") with false. cbv iota.
    destruct (csvLoad (ifstream files "")) as [t|e]; [reflexivity|].
    destruct reg as [m r]. cbn in *. now subst.
Qed.

(** C9: insert and delete end with a NotImplemented exception whatever
    they are given, and so does a save when the most recently used
    identifier is an URL; the table, the registry, the files and the output
    are left as they were. *)
Theorem unsupported_queries (reg : Registry) (files : Files) (o : string) :
  (forall mustWait colNames values st,
     insertQuery mustWait colNames values st
     = (Raised (Exp NotImplemented "insert is not yet implemented."), st))
  /\
  (forall mustWait whereColIdx cond value st,
     deleteQuery mustWait whereColIdx cond value st
     = (Raised (Exp NotImplemented "delete is not yet implemented."), st))
  /\
  (starts_with "http://" (recentCSV reg) = true ->
   saveQuery csvSave reg files o
   = (Throw (Exp NotImplemented "Saving CSV to an URL using POST is not implemented"),
      files, o)).
Proof.
  split; [reflexivity|]. split; [reflexivity|].
  intros Hurl. unfold saveQuery. rewrite Hurl, orb_true_r. reflexivity.
Qed.

End RegistryFacts.

(** *** The registry with no file and no server *)

(** C6 as it is stated does not hold: the load of missing.csv fails and
    the most recently used identifier has changed. *)
Lemma failed_load_changes_recent :
  exists e reg1,
    loadAndGet simple_load no_trim whole_URL offline ∅ "missing.csv" loaded = (Throw e, reg1)
    /\ inMemoryCSV reg1 = inMemoryCSV loaded
    /\ recentCSV loaded = "a.csv"
    /\ recentCSV reg1 = "missing.csv".
Proof. do 2 eexists. split; [reflexivity|]. repeat split. Qed.

Lemma loadAndGet_load_fails_witness :
  loadAndGet simple_load no_trim whole_URL offline ∅ "missing.csv" loaded
  = (Throw (Exp LoadFailed "Unable to read the stream"),
     mkRegistry (inMemoryCSV loaded) "missing.csv").
Proof.
  destruct (loadAndGet_load_fails simple_load no_trim whole_URL offline ∅ "missing.csv" loaded
              (Exp LoadFailed "Unable to read the stream")) as [H _].
  - reflexivity.
  - reflexivity.
  - exact H.
Defined.

(** C7 as it is stated does not hold: with nothing recorded, the empty
    identifier ends like a file that does not exist, with the exception of
    the loader. *)
Lemma empty_identifier_is_a_failed_load :
  fst (loadAndGet simple_load no_trim whole_URL offline ∅ "" emptyRegistry)
  = Throw (Exp LoadFailed "Unable to read the stream")
  /\ fst (loadAndGet simple_load no_trim whole_URL offline ∅ "" emptyRegistry)
     = fst (loadAndGet simple_load no_trim whole_URL offline ∅ "missing.csv" emptyRegistry)
  /\ forall msg,
       fst (loadAndGet simple_load no_trim whole_URL offline ∅ "" emptyRegistry)
       <> Throw (Exp NoTableLoaded msg).
Proof. split; [reflexivity|]. split; [reflexivity|]. intros msg. discriminate. Qed.

Lemma loadAndGet_empty_identifier_witness :
  (loadAndGet simple_load no_trim whole_URL offline ∅ "" loaded = (Ok "a.csv", loaded)
   /\ is_Some (deref loaded "a.csv"))
  /\ loadAndGet simple_load no_trim whole_URL offline ∅ "" emptyRegistry
     = (Throw (Exp LoadFailed "Unable to read the stream"), emptyRegistry).
Proof.
  split.
  - destruct (loadAndGet_empty_identifier simple_load no_trim whole_URL offline ∅ "a.csv"
                loaded loaded "a.csv") as [H _].
    apply H. reflexivity.
  - destruct (loadAndGet_empty_identifier simple_load no_trim whole_URL offline ∅ "a.csv"
                emptyRegistry emptyRegistry "a.csv") as [_ H].
    rewrite H; reflexivity.
Defined.

Lemma unsupported_queries_witness :
  saveQuery simple_save (mkRegistry ∅ "http://data.com:8080/test.csv") ∅ ""
  = (Throw (Exp NotImplemented "Saving CSV to an URL using POST is not implemented"), ∅, "").
Proof.
  destruct (unsupported_queries simple_save (mkRegistry ∅ "http://data.com:8080/test.csv") ∅ "")
    as (_ & _ & H).
  apply H. reflexivity.
Defined.

(** ** The connection dispatcher *)

Section DispatcherFacts.

Variable url_decode : string -> string.
Variable httpFile : string -> string.
Variable what : Exn -> string.
Variable process : string -> string * option Exn.
Variable maxThr : Z.
Variable n0 : Z.

Local Abbreviation clientThread := (clientThread url_decode httpFile what process).
Local Abbreviation server_step := (server_step url_decode httpFile what process maxThr).
Local Abbreviation reachable := (reachable url_decode httpFile what process maxThr n0).
Local Abbreviation gate_invariant := (gate_invariant maxThr n0).

(** Whatever the request and however the query ends, a worker ends by
    decrementing the counter and waking one waiter of the gate. *)
Lemma clientThread_end (req : Request) (n : Z) :
  snd (fst (clientThread req n)) = n - 1 /\ snd (clientThread req n) = [NotifyOne thrCond].
Proof. split; reflexivity. Qed.

Lemma step_invariant (s s' : Server) :
  gate_invariant s -> server_step s s' -> gate_invariant s'.
Proof.
  unfold gate_invariant. intros (Hw & Hsp & Hn) Hstep.
  destruct Hstep as [n w Hle | n w | n w p req]; cbn [workers numThreads pc] in *.
  - repeat split; [lia | intros _; lia | lia].
  - specialize (Hsp eq_refl). repeat split; [lia | discriminate | lia].
  - destruct (clientThread_end req n) as [-> _].
    repeat split; [destruct p; lia | intros Hp; specialize (Hsp Hp); lia | lia].
Qed.

Lemma reachable_invariant (s : Server) : reachable s -> gate_invariant s.
Proof.
  induction 1 as [|s s' Hr IH Hstep].
  - unfold gate_invariant. cbn. repeat split; [lia | discriminate | lia].
  - eapply step_invariant; eassumption.
Qed.


End DispatcherFacts.

(** *** The server with a maximum of one thread *)

Lemma reach_two_workers :
  reachable plain_decode no_file what_of failing_process 1 0 (mkServer 1 2 Spawned).
Proof.
  eapply reach_step; [eapply reach_step; [eapply reach_step; [apply reach_init|]|]|].
  - apply (runServer_admit _ _ _ _ 1 0 0). lia.
  - apply (runServer_count _ _ _ _ 1 0 1).
  - apply (runServer_admit _ _ _ _ 1 1 1). lia.
Qed.

(** The bound of M workers depends on the value the counter starts with:
    with a maximum of 1 and a counter that starts at 0, two workers run at
    the same time. *)
Lemma two_workers_with_max_one :
  reachable plain_decode no_file what_of failing_process 1 0 (mkServer 1 2 Spawned)
  /\ (workers (mkServer 1 2 Spawned) > 1)%nat.
Proof. split; [apply reach_two_workers | simpl; lia]. Qed.



(** * Further properties of the executor *)

Section ExecutorFrame.

Variable matches : string -> string -> string -> Res bool.
Variable racing : nat -> nat -> CSV -> CSV.

(** ** What an update leaves alone *)

Lemma sameWidths_refl (rows : list CSVRow) : sameWidths rows rows.
Proof. induction rows; constructor; auto. Qed.

Lemma sameWidths_trans (a b c : list CSVRow) :
  sameWidths a b -> sameWidths b c -> sameWidths a c.
Proof.
  intros Hab. revert c. induction Hab as [|x y a b Hxy Hab IH]; intros c Hbc.
  - inversion Hbc. constructor.
  - inversion Hbc; subst. constructor; [congruence | now apply IH].
Qed.

Lemma updateCells_width (t : CSV) (colNames values : StrVec) (i : nat) (row : CSVRow) :
  length (snd (updateCells t colNames values i row)) = length row.
Proof.
  revert i row. induction colNames as [|c cs IH]; intros i row; [reflexivity|].
  simpl. destruct (at_ values (Z.of_nat i)) as [v|e]; [|reflexivity].
  rewrite bind_Ok. destruct (getColumnIndex t c) as [idx|e]; [|reflexivity].
  rewrite bind_Ok. unfold set_at.
  destruct ((0 <=? idx) && (idx <? Z.of_nat (length row))); [|reflexivity].
  rewrite IH. apply length_insert.
Qed.

Lemma updateRow_width (t : CSV) (colNames values : StrVec) (whereColIdx : Z)
    (cond value : string) (row : CSVRow) (rowCount : Z) :
  length (snd (updateRow matches t colNames values whereColIdx cond value row rowCount))
  = length row.
Proof.
  unfold updateRow.
  destruct (if negb (whereColIdx =? -1)
            then cell ← at_ row whereColIdx; matches cell cond value
            else Ok false) as [b|e]; [|reflexivity].
  destruct ((whereColIdx =? -1) || b); [|reflexivity].
  pose proof (updateCells_width t colNames values 0 row) as H.
  destruct (updateCells t colNames values 0 row) as [[e|] row']; exact H.
Qed.

Lemma updateRows_widths (t : CSV) (colNames values : StrVec) (whereColIdx : Z)
    (cond value : string) (rows : list CSVRow) (i : nat) (rowCount : Z) :
  sameWidths rows
    (snd (fst (updateRows matches t colNames values whereColIdx cond value rows i rowCount))).
Proof.
  revert i rowCount. induction rows as [|row rest IH]; intros i rowCount; [constructor|].
  simpl.
  pose proof (updateRow_width t colNames values whereColIdx cond value row rowCount) as Hw.
  destruct (updateRow matches t colNames values whereColIdx cond value row rowCount)
    as [[rc'|e] row']; simpl in Hw.
  - specialize (IH (S i) rc').
    destruct (updateRows matches t colNames values whereColIdx cond value rest (S i) rc')
      as [[r rest'] evs]. simpl in *. constructor; [congruence | exact IH].
  - simpl. constructor; [congruence | apply sameWidths_refl].
Qed.

Lemma updateRowProcess_shape (t : CSV) (colNames values : StrVec) (whereColIdx : Z)
    (cond value : string) (rowCount : Z) :
  getColumnNames
    (snd (fst (updateRowProcess matches t colNames values whereColIdx cond value rowCount)))
  = getColumnNames t
  /\ sameWidths (csvRows t)
       (csvRows
          (snd (fst (updateRowProcess matches t colNames values whereColIdx cond value rowCount)))).
Proof.
  unfold updateRowProcess.
  pose proof (updateRows_widths t colNames values whereColIdx cond value (csvRows t) 0 rowCount)
    as H.
  destruct (updateRows matches t colNames values whereColIdx cond value (csvRows t) 0 rowCount)
    as [[r rows'] evs]. simpl in *. auto.
Qed.

(** The waiting loop of an update keeps the shape of the table it works on
    last: the one of the last wake-up consumed. *)
Lemma updateLoop_shape (wk : list CSV) (mustWait : bool) (colNames values : StrVec)
    (whereColIdx : Z) (cond value : string) (rowCount : Z) (st : Exec) :
  wakeups st = wk ->
  exists used,
    wk = used ++ wakeups (snd (updateLoop matches wk mustWait colNames values whereColIdx
                                 cond value rowCount st))
    /\ getColumnNames (csv (snd (updateLoop matches wk mustWait colNames values whereColIdx
                                   cond value rowCount st)))
       = getColumnNames (lastTable (csv st) used)
    /\ sameWidths (csvRows (lastTable (csv st) used))
         (csvRows (csv (snd (updateLoop matches wk mustWait colNames values whereColIdx
                               cond value rowCount st))))
    /\ os (snd (updateLoop matches wk mustWait colNames values whereColIdx
                  cond value rowCount st)) = os st.
Proof.
  revert mustWait rowCount st. induction wk as [|t wk IH]; intros mustWait rowCount st Hwk.
  - exists []. simpl. destruct ((rowCount =? 0) && mustWait); simpl;
      rewrite ?Hwk; repeat split; auto using sameWidths_refl.
  - cbn [updateLoop]. destruct ((rowCount =? 0) && mustWait).
    + destruct (updateRowProcess_shape t colNames values whereColIdx cond value rowCount)
        as [Hh Hs].
      destruct (updateRowProcess matches t colNames values whereColIdx cond value rowCount)
        as [[[rc'|e] t'] evs]; cbn [fst snd] in Hh, Hs.
      * match goal with |- context [updateLoop _ wk ?mw _ _ _ _ _ ?rc ?s] =>
          destruct (IH mw rc s eq_refl) as (used & Hu & Hhd & Hsw & Ho) end.
        cbn [csv os] in Hhd, Hsw, Ho.
        exists (t :: used).
        split; [change (t :: wk = t :: (used ++ wakeups (snd (updateLoop matches wk
                  (if negb (rc' =? 0) then false else mustWait) colNames values whereColIdx
                  cond value rc' (mkExec t' (os st)
                    (sync st ++ [Lock csvMutex; CondWait csvCondVar; CondWake csvCondVar]
                     ++ evs ++ [Unlock csvMutex]) wk))))); f_equal; exact Hu|].
        destruct used as [|u used']; cbn [lastTable] in *.
        -- repeat split; [congruence | | exact Ho].
           eapply sameWidths_trans; eassumption.
        -- repeat split; assumption.
      * exists [t]. cbn [snd csv os wakeups app lastTable]. repeat split; assumption.
    + exists []. cbn [snd app lastTable]. repeat split; auto using sameWidths_refl.
Qed.

(** X2: an update keeps the shape of the table.  Whatever the query and
    however the call ends, the table it leaves has the column names of the
    table it worked on last (the one of the last wake-up consumed, the one
    it was given when it has consumed none), as many rows, and each row as
    wide as it was; and an update that does not return normally has
    written nothing. *)
Theorem updateQuery_keeps_shape (mustWait : bool) (colNames values : StrVec)
    (whereColIdx : Z) (cond value : string) (st : Exec) :
  exists used,
    wakeups st
    = used ++ wakeups (snd (updateQuery matches mustWait colNames values whereColIdx cond value st))
    /\ getColumnNames
         (csv (snd (updateQuery matches mustWait colNames values whereColIdx cond value st)))
       = getColumnNames (lastTable (csv st) used)
    /\ sameWidths (csvRows (lastTable (csv st) used))
         (csvRows
            (csv (snd (updateQuery matches mustWait colNames values whereColIdx cond value st))))
    /\ (fst (updateQuery matches mustWait colNames values whereColIdx cond value st) <> Done tt ->
        os (snd (updateQuery matches mustWait colNames values whereColIdx cond value st)) = os st).
Proof.
  unfold updateQuery.
  destruct (updateRowProcess_shape (csv st) colNames values whereColIdx cond value 0) as [Hh Hs].
  destruct (updateRowProcess matches (csv st) colNames values whereColIdx cond value 0)
    as [[[rc|e] t'] evs]; cbn [fst snd] in Hh, Hs.
  - match goal with |- context [updateLoop _ ?w ?mw _ _ _ _ _ ?r ?s] =>
      destruct (updateLoop_shape w mw colNames values whereColIdx cond value r s eq_refl)
        as (used & Hu & Hhd & Hsw & Ho);
      destruct (updateLoop matches w mw colNames values whereColIdx cond value r s)
        as [[n|e| |] st2] end; cbn [fst snd csv os wakeups] in *;
      exists used.
    + assert (Hshape : getColumnNames (csv st2) = getColumnNames (lastTable (csv st) used)
                       /\ sameWidths (csvRows (lastTable (csv st) used)) (csvRows (csv st2))).
      { destruct used as [|u used']; cbn [lastTable] in *; [|auto].
        split; [congruence | eapply sameWidths_trans; eassumption]. }
      destruct Hshape as [H1 H2].
      destruct (negb (n =? 0)); cbn [csv os wakeups write log]; repeat split; auto; congruence.
    + destruct used as [|u used']; cbn [lastTable] in *; repeat split; auto; try congruence.
      eapply sameWidths_trans; eassumption.
    + destruct used as [|u used']; cbn [lastTable] in *; repeat split; auto; try congruence.
      eapply sameWidths_trans; eassumption.
    + destruct used as [|u used']; cbn [lastTable] in *; repeat split; auto; try congruence.
      eapply sameWidths_trans; eassumption.
  - exists []. cbn [fst snd csv os wakeups app lastTable]. repeat split; auto.
Qed.

End ExecutorFrame.

Section ExecutorEdges.

Variable matches : string -> string -> string -> Res bool.
Variable racing : nat -> nat -> CSV -> CSV.

(** ** The empty table *)

(** X3: on a table with no rows a query that does not wait returns at
    once with the count line for 0, whatever its column names, values and
    where-clause are, and an update then notifies no one; a query that
    waits blocks on the condition variable. *)
Theorem queries_on_empty_table (colNames values : StrVec) (whereColIdx : Z)
    (cond value : string) (st : Exec) :
  csvRows (csv st) = [] ->
  (colNames <> [] ->
   selectQuery matches racing false colNames whereColIdx cond value st
   = (Done tt,
      mkExec (csv st) (os st +:+ "0 row(s) selected." +:+ endl) (sync st) (wakeups st)))
  /\ updateQuery matches false colNames values whereColIdx cond value st
     = (Done tt,
        mkExec (csv st) (os st +:+ "0 row(s) updated." +:+ endl) (sync st) (wakeups st))
  /\ (colNames <> [] -> wakeups st = [] ->
      selectQuery matches racing true colNames whereColIdx cond value st
      = (Waiting,
         mkExec (csv st) (os st) (sync st ++ [Lock csvMutex; CondWait csvCondVar]) []))
  /\ (wakeups st = [] ->
      updateQuery matches true colNames values whereColIdx cond value st
      = (Waiting,
         mkExec (csv st) (os st) (sync st ++ [Lock csvMutex; CondWait csvCondVar]) [])).
Proof.
  intros Hrows. destruct st as [[hdr rows] o sy wk]. cbn [csv csvRows] in Hrows. subst rows.
  split; [|split; [|split]].
  - intros Hne. destruct colNames as [|c0 rest]; [congruence|].
    unfold selectQuery, selectBody, selectRowProcess. cbn [csv csvRows selectRows].
    rewrite selectLoop_nowait. unfold log, write. cbn [csv os sync wakeups Z.eqb negb].
    rewrite app_nil_r. reflexivity.
  - unfold updateQuery, updateRowProcess. cbn [csv csvRows updateRows getColumnNames].
    rewrite updateLoop_nowait. unfold log, write. cbn [csv os sync wakeups Z.eqb negb].
    rewrite app_nil_r. reflexivity.
  - intros Hne Hwk. cbn [wakeups] in Hwk. subst wk.
    destruct colNames as [|c0 rest]; [congruence|].
    unfold selectQuery, selectBody, selectRowProcess. cbn [csv csvRows selectRows].
    unfold log. cbn [csv os sync wakeups selectLoop snd Z.eqb andb].
    unfold log. cbn [csv os sync wakeups]. rewrite app_nil_r. reflexivity.
  - intros Hwk. cbn [wakeups] in Hwk. subst wk.
    unfold updateQuery, updateRowProcess. cbn [csv csvRows updateRows getColumnNames].
    cbn [csv os sync wakeups updateLoop Z.eqb andb].
    unfold log. cbn [csv os sync wakeups]. rewrite app_nil_r. reflexivity.
Qed.

(** ** A where-clause that cannot be evaluated *)

(** The exception of the where-clause on the first row ends both queries
    before anything is written or assigned. *)
Lemma where_throws (mustWait : bool) (colNames values : StrVec) (whereColIdx : Z)
    (cond value : string) (st : Exec) (row0 : CSVRow) (rest : list CSVRow) (e : Exn) :
  csvRows (csv st) = row0 :: rest ->
  (if whereColIdx =? -1 then Ok true
   else cell ← at_ row0 whereColIdx; matches cell cond value) = Throw e ->
  (colNames <> [] ->
   selectQuery matches racing mustWait colNames whereColIdx cond value st
   = (Raised e,
      mkExec (csv st) (os st) (sync st ++ [Lock (rowMutex 0); Unlock (rowMutex 0)])
        (wakeups st)))
  /\ updateQuery matches mustWait colNames values whereColIdx cond value st
     = (Raised e,
        mkExec (csv st) (os st) (sync st ++ [Lock (rowMutex 0); Unlock (rowMutex 0)])
          (wakeups st)).
Proof.
  intros Hrows Hthrow. split.
  - intros Hne. destruct colNames as [|c0 cs]; [congruence|].
    unfold selectQuery, selectBody, selectRowProcess. rewrite Hrows.
    cbn [selectRows]. unfold selectRow. rewrite Hthrow, bind_Throw. reflexivity.
  - unfold updateQuery, updateRowProcess. rewrite Hrows.
    cbn [updateRows]. unfold updateRow.
    destruct (whereColIdx =? -1); [discriminate|].
    cbn [negb]. rewrite Hthrow.
    destruct st as [[hdr rows] o sy wk]. cbn [csv csvRows getColumnNames] in *. now subst rows.
Qed.

(** X4: a where-clause on a column index that the first row does not
    have ends a select and an update with out_of_range; nothing has been
    written, no row has been assigned and no one is notified. *)
Theorem where_index_out_of_range (mustWait : bool) (colNames values : StrVec)
    (whereColIdx : Z) (cond value : string) (st : Exec) (row0 : CSVRow) (rest : list CSVRow) :
  csvRows (csv st) = row0 :: rest ->
  whereColIdx <> -1 ->
  ~ (0 <= whereColIdx < Z.of_nat (length row0)) ->
  (colNames <> [] ->
   selectQuery matches racing mustWait colNames whereColIdx cond value st
   = (Raised out_of_range,
      mkExec (csv st) (os st) (sync st ++ [Lock (rowMutex 0); Unlock (rowMutex 0)])
        (wakeups st)))
  /\ updateQuery matches mustWait colNames values whereColIdx cond value st
     = (Raised out_of_range,
        mkExec (csv st) (os st) (sync st ++ [Lock (rowMutex 0); Unlock (rowMutex 0)])
          (wakeups st)).
Proof.
  intros Hrows Hw Hout. apply (where_throws _ _ _ _ _ _ _ row0 rest); [exact Hrows|].
  apply Z.eqb_neq in Hw. rewrite Hw. unfold at_.
  replace ((0 <=? whereColIdx) && (whereColIdx <? Z.of_nat (length row0))) with false;
    [reflexivity|].
  symmetry. apply andb_false_iff.
  destruct (Z.leb_spec 0 whereColIdx); [right; apply Z.ltb_ge; lia | now left].
Qed.

(** X5: an exception of the matcher on the first row ends a select and an
    update with that exception; nothing has been written, no row has been
    assigned and no one is notified. *)
Theorem matcher_exception_propagates (mustWait : bool) (colNames values : StrVec)
    (whereColIdx : Z) (cond value : string) (st : Exec) (row0 : CSVRow) (rest : list CSVRow)
    (cell : string) (e : Exn) :
  csvRows (csv st) = row0 :: rest ->
  0 <= whereColIdx ->
  row0 !! Z.to_nat whereColIdx = Some cell ->
  matches cell cond value = Throw e ->
  (colNames <> [] ->
   selectQuery matches racing mustWait colNames whereColIdx cond value st
   = (Raised e,
      mkExec (csv st) (os st) (sync st ++ [Lock (rowMutex 0); Unlock (rowMutex 0)])
        (wakeups st)))
  /\ updateQuery matches mustWait colNames values whereColIdx cond value st
     = (Raised e,
        mkExec (csv st) (os st) (sync st ++ [Lock (rowMutex 0); Unlock (rowMutex 0)])
          (wakeups st)).
Proof.
  intros Hrows Hw Hcell Hm. apply (where_throws _ _ _ _ _ _ _ row0 rest); [exact Hrows|].
  replace (whereColIdx =? -1) with false by (symmetry; apply Z.eqb_neq; lia).
  destruct (at_in_range row0 whereColIdx) as (c & Hc & Hl).
  { apply lookup_lt_Some in Hcell. lia. }
  rewrite Hc, bind_Ok. congruence.
Qed.

(** ** Fewer values than columns *)

Lemma updateCells_short (t : CSV) (known : StrVec) (c : string) (rest values : StrVec)
    (i : nat) (row : CSVRow) :
  length row = length (getColumnNames t) ->
  knownColumns t known ->
  (i + length known = length values)%nat ->
  updateCells t (known ++ c :: rest) values i row
  = (Some out_of_range, assign t known (drop i values) row).
Proof.
  intros Hlen Hknown. revert i row Hlen.
  induction Hknown as [|k ks Hk Hks IH]; intros i row Hlen Hvals; simpl length in Hvals.
  - simpl updateCells. unfold at_.
    replace ((0 <=? Z.of_nat i) && (Z.of_nat i <? Z.of_nat (length values))) with false
      by (symmetry; apply andb_false_iff; right; apply Z.ltb_ge; lia).
    reflexivity.
  - simpl updateCells.
    destruct (at_in_range values (Z.of_nat i)) as (v & Hv & Hvi); [lia|].
    rewrite Nat2Z.id in Hvi.
    destruct (getColumnIndex_known t k Hk) as (j & Hj & Hr).
    rewrite Hv, bind_Ok, Hj, bind_Ok, set_at_in_range by lia.
    rewrite IH by (rewrite ?length_insert; first [assumption | lia]).
    rewrite (drop_S _ _ _ Hvi). simpl assign. now rewrite Hj.
Qed.

(** A scan stops at the first matching row when the assignments of a row
    end with an exception. *)
Lemma updateRows_stop (t : CSV) (colNames values : StrVec) (e : Exn)
    (f : CSVRow -> CSVRow) (whereColIdx : Z) (cond value : string)
    (rows : list CSVRow) (i : nat) (rowCount : Z) :
  Forall (fun row : CSVRow => length row = length (getColumnNames t)) rows ->
  whereDefined matches t whereColIdx cond value ->
  (forall row : CSVRow, length row = length (getColumnNames t) ->
                        updateCells t colNames values 0 row = (Some e, f row)) ->
  List.filter (rowSatisfies matches whereColIdx cond value) rows <> [] ->
  exists n before row after,
    rows = before ++ row :: after
    /\ List.filter (rowSatisfies matches whereColIdx cond value) before = []
    /\ rowSatisfies matches whereColIdx cond value row = true
    /\ updateRows matches t colNames values whereColIdx cond value rows i rowCount
       = (Throw e, before ++ f row :: after, rowGuards i n).
Proof.
  intros Hrect Hw Hcells. revert i.
  induction Hrect as [|row rows' Hrow Hrest IH]; intros i Hsome; [simpl in Hsome; congruence|].
  simpl in Hsome. simpl updateRows. unfold updateRow.
  pose proof (rowSatisfies_defined matches t whereColIdx cond value row Hrow Hw) as Hsat.
  destruct (rowSatisfies matches whereColIdx cond value row) eqn:Hs.
  - exists 1%nat, [], row, rows'. repeat split; [exact Hs|].
    destruct (whereColIdx =? -1) eqn:E; simpl negb; cbv iota.
    + simpl orb. cbv iota. rewrite (Hcells row Hrow). reflexivity.
    + rewrite Hsat. simpl orb. cbv iota. rewrite (Hcells row Hrow). reflexivity.
  - destruct (IH (S i) Hsome) as (n & before & r & after & -> & Hb & Hr & Heq).
    exists (S n), (row :: before), r, after.
    split; [reflexivity|]. split; [simpl; now rewrite Hs|]. split; [exact Hr|].
    destruct (whereColIdx =? -1) eqn:E; [discriminate|].
    simpl negb. cbv iota. rewrite Hsat. simpl orb. cbv iota.
    rewrite Heq. reflexivity.
Qed.

(** X6: an update with fewer values than columns in its set list, on a
    table with a matching row, ends with out_of_range when the values run
    out.  By then the first matching row has been assigned the values
    there are; the other rows are as they were, nothing has been written
    and no one is notified. *)
Theorem update_with_too_few_values (mustWait : bool) (colNames values : StrVec)
    (whereColIdx : Z) (cond value : string) (st : Exec) :
  rectangular (csv st) ->
  whereDefined matches (csv st) whereColIdx cond value ->
  knownColumns (csv st) (take (length values) colNames) ->
  (length values < length colNames)%nat ->
  matching matches whereColIdx cond value (csv st) <> [] ->
  exists n before row after,
    csvRows (csv st) = before ++ row :: after
    /\ List.filter (rowSatisfies matches whereColIdx cond value) before = []
    /\ rowSatisfies matches whereColIdx cond value row = true
    /\ updateQuery matches mustWait colNames values whereColIdx cond value st
       = (Raised out_of_range,
          mkExec (mkCSV (getColumnNames (csv st))
                    (before
                     ++ assign (csv st) (take (length values) colNames) values row :: after))
            (os st) (sync st ++ rowGuards 0 n) (wakeups st)).
Proof.
  intros Hrect Hw Hknown Hshort Hsome.
  destruct (drop (length values) colNames) as [|c rest] eqn:Hdrop.
  { apply (f_equal length) in Hdrop. rewrite length_drop in Hdrop. simpl in Hdrop. lia. }
  assert (Hcols : colNames = take (length values) colNames ++ c :: rest)
    by (rewrite <- Hdrop; symmetry; apply take_drop).
  destruct (updateRows_stop (csv st) colNames values out_of_range
              (assign (csv st) (take (length values) colNames) values)
              whereColIdx cond value (csvRows (csv st)) 0 0 Hrect Hw)
    as (n & before & row & after & Hrows & Hb & Hr & Heq); [|exact Hsome|].
  - intros row Hrow. rewrite Hcols at 1.
    apply (updateCells_short (csv st) _ c rest values 0 row Hrow Hknown).
    rewrite length_take. lia.
  - exists n, before, row, after.
    split; [exact Hrows|]. split; [exact Hb|]. split; [exact Hr|].
    unfold updateQuery, updateRowProcess. rewrite Heq. reflexivity.
Qed.

End ExecutorEdges.

Section ExecutorComposition.

Variable matches : string -> string -> string -> Res bool.
Variable racing : nat -> nat -> CSV -> CSV.

(** ** An update run twice *)

Lemma getColumnIndex_header (t t' : CSV) (c : string) :
  getColumnNames t = getColumnNames t' -> getColumnIndex t c = getColumnIndex t' c.
Proof. intros H. unfold getColumnIndex. now rewrite H. Qed.

Lemma assign_header (t t' : CSV) (colNames values : StrVec) (row : CSVRow) :
  getColumnNames t = getColumnNames t' ->
  assign t colNames values row = assign t' colNames values row.
Proof.
  intros H. revert values row. induction colNames as [|c cs IH]; intros values row;
    [reflexivity|].
  destruct values as [|v vs]; [reflexivity|]. simpl.
  rewrite (getColumnIndex_header t t' c H).
  destruct (getColumnIndex t' c); [apply IH | reflexivity].
Qed.

(** A position of a row that the assignments change is one they assign. *)
Lemma assign_lookup_cases (t : CSV) (colNames values : StrVec) (row : CSVRow) (p : nat) :
  assign t colNames values row !! p = row !! p \/ assignedAt t colNames values p.
Proof.
  revert values row. induction colNames as [|c cs IH]; intros values row; [now left|].
  destruct values as [|v vs]; [now left|]. simpl.
  destruct (getColumnIndex t c) as [idx|e] eqn:Hidx; [|now left].
  destruct (IH vs (<[Z.to_nat idx := v]> row)) as [Heq|(k & c' & v' & i' & Hk & Hv & Hi & Hp)].
  - destruct (decide (Z.to_nat idx = p)) as [Hp|Hp].
    + right. exists 0%nat, c, v, idx. auto.
    + left. rewrite Heq. now apply list_lookup_insert_ne.
  - right. exists (S k), c', v', i'. auto.
Qed.

(** What the assignments give depends only on the positions they do not
    assign. *)
Lemma assign_absorb (t : CSV) (colNames values : StrVec) (r1 r2 : CSVRow) :
  knownColumns t colNames ->
  length r1 = length r2 ->
  (forall p, r1 !! p = r2 !! p \/ assignedAt t colNames values p) ->
  assign t colNames values r1 = assign t colNames values r2.
Proof.
  intros Hknown. revert values r1 r2.
  induction Hknown as [|c cs Hc Hcs IH]; intros values r1 r2 Hlen Hagree.
  - simpl. apply list_eq. intros p.
    destruct (Hagree p) as [H|(k & c' & v' & i' & Hk & _)]; [exact H | discriminate].
  - destruct values as [|v vs].
    + simpl. apply list_eq. intros p.
      destruct (Hagree p) as [H|(k & c' & v' & i' & _ & Hv & _)]; [exact H | discriminate].
    + simpl. destruct (getColumnIndex_known t c Hc) as (idx & Hidx & Hr). rewrite Hidx.
      apply IH; [now rewrite !length_insert|].
      intros p. destruct (decide (Z.to_nat idx = p)) as [<-|Hp].
      * left. destruct (decide (Z.to_nat idx < length r1)%nat) as [Hlt|Hge].
        -- rewrite !list_lookup_insert_eq by lia. reflexivity.
        -- rewrite !lookup_ge_None_2 by (rewrite length_insert; lia). reflexivity.
      * rewrite !list_lookup_insert_ne by assumption.
        destruct (Hagree p) as [H|(k & c' & v' & i' & Hk & Hv & Hi & Hpp)]; [now left|].
        destruct k as [|k]; simpl in Hk, Hv.
        -- injection Hk as <-. rewrite Hidx in Hi. injection Hi as <-. contradiction.
        -- right. exists k, c', v', i'. auto.
Qed.

Lemma assign_idem (t : CSV) (colNames values : StrVec) (row : CSVRow) :
  knownColumns t colNames ->
  assign t colNames values (assign t colNames values row) = assign t colNames values row.
Proof.
  intros Hknown. apply assign_absorb; [assumption | apply assign_length |].
  intros p. apply assign_lookup_cases.
Qed.

(** Assignments that leave the column of the where-clause alone do not
    change whether a row satisfies it. *)
Lemma rowSatisfies_assign (t : CSV) (colNames values : StrVec) (whereColIdx : Z)
    (cond value : string) (row : CSVRow) :
  whereUntouched t colNames whereColIdx ->
  rowSatisfies matches whereColIdx cond value (assign t colNames values row)
  = rowSatisfies matches whereColIdx cond value row.
Proof.
  intros Hun. unfold rowSatisfies. destruct (whereColIdx =? -1); [reflexivity|].
  assert (Hat : at_ (assign t colNames values row) whereColIdx = at_ row whereColIdx);
    [|now rewrite Hat].
  unfold at_. rewrite assign_length.
  destruct ((0 <=? whereColIdx) && (whereColIdx <? Z.of_nat (length row))) eqn:Hr;
    [|reflexivity].
  apply andb_true_iff in Hr. destruct Hr as [H0 _]. apply Z.leb_le in H0.
  rewrite assign_other; [reflexivity|].
  intros c Hc. rewrite Z2Nat.id by lia. now apply Hun.
Qed.

Lemma matching_updated (t : CSV) (colNames values : StrVec) (whereColIdx : Z)
    (cond value : string) (rows : list CSVRow) :
  whereUntouched t colNames whereColIdx ->
  List.filter (rowSatisfies matches whereColIdx cond value)
    (map (fun row => if rowSatisfies matches whereColIdx cond value row
                     then assign t colNames values row else row) rows)
  = map (assign t colNames values)
      (List.filter (rowSatisfies matches whereColIdx cond value) rows).
Proof.
  intros Hun. induction rows as [|row rows IH]; [reflexivity|].
  simpl. destruct (rowSatisfies matches whereColIdx cond value row) eqn:Hs.
  - rewrite rowSatisfies_assign, Hs by assumption. simpl. now rewrite IH.
  - rewrite Hs. exact IH.
Qed.

Lemma updated_twice (t : CSV) (colNames values : StrVec) (whereColIdx : Z)
    (cond value : string) (rows : list CSVRow) :
  knownColumns t colNames ->
  whereUntouched t colNames whereColIdx ->
  map (fun row => if rowSatisfies matches whereColIdx cond value row
                  then assign t colNames values row else row)
    (map (fun row => if rowSatisfies matches whereColIdx cond value row
                     then assign t colNames values row else row) rows)
  = map (fun row => if rowSatisfies matches whereColIdx cond value row
                    then assign t colNames values row else row) rows.
Proof.
  intros Hknown Hun. induction rows as [|row rows IH]; [reflexivity|].
  simpl. rewrite IH. f_equal.
  destruct (rowSatisfies matches whereColIdx cond value row) eqn:Hs.
  - rewrite rowSatisfies_assign, Hs by assumption. now apply assign_idem.
  - now rewrite Hs.
Qed.

Lemma updatedRows_rectangular (t : CSV) (colNames values : StrVec) (whereColIdx : Z)
    (cond value : string) :
  rectangular t ->
  rectangular (mkCSV (getColumnNames t)
                 (updatedRows matches t colNames values whereColIdx cond value)).
Proof.
  unfold rectangular, updatedRows. cbn [getColumnNames csvRows].
  intros H. induction H as [|row rows Hrow Hrows IH]; [constructor|].
  simpl. constructor; [|exact IH].
  destruct (rowSatisfies matches whereColIdx cond value row); [|exact Hrow].
  now rewrite assign_length.
Qed.

(** X7: an update whose set list leaves the column of its where-clause
    alone does not change which rows satisfy the clause: the matching rows
    afterwards are the rows that matched, with the assignments made.  Run
    again on the result, the same update counts the same number of rows
    and leaves the table as the first run left it. *)
Theorem update_twice (colNames values : StrVec) (whereColIdx : Z)
    (cond value : string) (st : Exec) :
  rectangular (csv st) ->
  knownColumns (csv st) colNames ->
  (length colNames <= length values)%nat ->
  whereDefined matches (csv st) whereColIdx cond value ->
  countable (csv st) ->
  whereUntouched (csv st) colNames whereColIdx ->
  matching matches whereColIdx cond value
    (csv (snd (updateQuery matches false colNames values whereColIdx cond value st)))
  = map (assign (csv st) colNames values) (matching matches whereColIdx cond value (csv st))
  /\ updateQuery matches false colNames values whereColIdx cond value
       (snd (updateQuery matches false colNames values whereColIdx cond value st))
     = (Done tt,
        mkExec (csv (snd (updateQuery matches false colNames values whereColIdx cond value st)))
          (os st
           +:+ updateReport (length (matching matches whereColIdx cond value (csv st)))
           +:+ updateReport (length (matching matches whereColIdx cond value (csv st))))
          (sync (snd (updateQuery matches false colNames values whereColIdx cond value st))
           ++ rowGuards 0 (length (csvRows (csv st)))
           ++ match length (matching matches whereColIdx cond value (csv st)) with
              | O => []
              | S _ => [NotifyAll csvCondVar]
              end)
          (wakeups st)).
Proof.
  intros Hrect Hknown Hvals Hw Hc Hun.
  rewrite (updateQuery_returns matches false colNames values whereColIdx cond value st)
    by (first [assumption | now left]).
  cbn [snd csv os sync wakeups].
  set (t1 := mkCSV (getColumnNames (csv st))
               (updatedRows matches (csv st) colNames values whereColIdx cond value)).
  assert (Hm : matching matches whereColIdx cond value t1
               = map (assign (csv st) colNames values)
                   (matching matches whereColIdx cond value (csv st)))
    by (apply matching_updated; assumption).
  split; [exact Hm|].
  rewrite (updateQuery_returns matches false colNames values whereColIdx cond value)
    by (cbn [csv]; first [ apply updatedRows_rectangular; assumption
                         | assumption
                         | now left
                         | unfold countable, t1, updatedRows; cbn [csvRows];
                           rewrite length_map; exact Hc ]).
  cbn [csv os sync wakeups]. rewrite Hm, length_map.
  assert (Hlen : length (csvRows t1) = length (csvRows (csv st)))
    by (unfold t1, updatedRows; cbn [csvRows]; apply length_map).
  rewrite Hlen.
  assert (Hsame : mkCSV (getColumnNames t1)
                    (updatedRows matches t1 colNames values whereColIdx cond value) = t1).
  { unfold t1 at 3. f_equal. unfold updatedRows at 1.
    transitivity
      (map (fun row => if rowSatisfies matches whereColIdx cond value row
                       then assign (csv st) colNames values row else row) (csvRows t1)).
    - apply map_ext. intros row. now rewrite (assign_header t1 (csv st)).
    - unfold t1, updatedRows. cbn [csvRows]. now apply updated_twice. }
  rewrite Hsame. now rewrite append_assoc.
Qed.

(** ** The select of everything *)

Lemma lines_wildcard (t : CSV) (rows : list CSVRow) :
  NoDup (getColumnNames t) ->
  Forall (fun row : CSVRow => length row = length (getColumnNames t)) rows ->
  lines t (getColumnNames t) rows = printRows rows.
Proof.
  intros Hnd Hrect. induction Hrect as [|row rows Hrow Hrows IH]; [reflexivity|].
  simpl. unfold rowLine. rewrite wildcard_cells by assumption.
  now rewrite IH, append_assoc.
Qed.

Lemma filter_all (rows : list CSVRow) (cond value : string) :
  List.filter (rowSatisfies matches (-1) cond value) rows = rows.
Proof. induction rows as [|row rows IH]; [reflexivity|]. simpl. now rewrite IH. Qed.

(** X8: a select of the wildcard with no where-clause, on a table whose
    column names are distinct, writes the whole table: the column names,
    every row in order with all its cells separated by tabs, and the
    number of rows; for a table with no rows it writes the count line
    alone. *)
Theorem select_everything (rest : StrVec) (cond value : string) (st : Exec) :
  NoDup (getColumnNames (csv st)) ->
  rectangular (csv st) ->
  countable (csv st) ->
  selectQuery matches racing false ("*" :: rest) (-1) cond value st
  = (Done tt,
     mkExec (csv st) (os st +:+ printTable (csv st))
       (sync st ++ rowGuards 0 (length (csvRows (csv st)))) (wakeups st)).
Proof.
  intros Hnd Hrect Hc.
  assert (Hknown : knownColumns (csv st) (getColumnNames (csv st)))
    by (apply Forall_forall; intros c Hin; now apply list_elem_of_In).
  unfold selectQuery. change (String.eqb "*" "*") with true. cbv iota.
  unfold selectBody.
  rewrite (selectRowProcess_defined matches) by (first [assumption | now left]).
  rewrite selectLoop_nowait, select_tail.
  unfold selectReport, matching, printTable, write. rewrite filter_all.
  rewrite lines_wildcard by assumption.
  cbn [csv os sync wakeups]. unfold log. cbn [csv os sync wakeups]. reflexivity.
Qed.

End ExecutorComposition.

(** * Further properties of the registry *)

Lemma skipHeaders_body (headers : list string) (sep : string) (body : list string) :
  Forall (fun h => ~ blankLine h) headers -> blankLine sep ->
  skipHeaders (headers ++ sep :: body) = mkIStream true body.
Proof.
  intros Hh Hsep. induction Hh as [|h hs Hnb Hhs IH]; simpl.
  - destruct Hsep as [->| ->]; reflexivity.
  - destruct (String.eqb_spec h "") as [->|H1]; [exfalso; apply Hnb; now left|].
    destruct (String.eqb_spec h CR) as [->|H2]; [exfalso; apply Hnb; now right|].
    exact IH.
Qed.

Lemma skipHeaders_all (headers : list string) :
  Forall (fun h => ~ blankLine h) headers -> skipHeaders headers = mkIStream false [].
Proof.
  intros Hh. induction Hh as [|h hs Hnb Hhs IH]; simpl; [reflexivity|].
  destruct (String.eqb_spec h "") as [->|H1]; [exfalso; apply Hnb; now left|].
  destruct (String.eqb_spec h CR) as [->|H2]; [exfalso; apply Hnb; now right|].
  exact IH.
Qed.

Section RegistryMore.

Variable csvLoad : IStream -> Res CSV.
Variable csvSave : CSV -> list string.
Variable trim : string -> string.
Variable breakDownURL : string -> string * string * string.
Variable network : string -> string -> option (string -> list string).

(** X9: when the status line of the response holds 200 anywhere,
    [loadFromURL] hands to the loader a good stream with exactly the lines
    that follow the first blank line (or lone carriage return) after the
    status line, and gives back what the loader gives; when the response
    has no such line, the loader is handed the stream at its end and
    failed, the last [getline] of the header loop having found nothing. *)
Theorem loadFromURL_payload (hostName port path status : string)
    (server : string -> list string) (headers : list string) :
  network hostName port = Some server ->
  contains "200" status = true ->
  Forall (fun h => ~ blankLine h) headers ->
  (forall sep body,
     server (httpGet hostName path) = status :: headers ++ sep :: body ->
     blankLine sep ->
     loadFromURL csvLoad trim network hostName port path = csvLoad (mkIStream true body))
  /\ (server (httpGet hostName path) = status :: headers ->
      loadFromURL csvLoad trim network hostName port path = csvLoad (mkIStream false [])).
Proof.
  intros Hnet Hstatus Hh. split.
  - intros sep body Hresp Hsep. unfold loadFromURL. rewrite Hnet.
    change (server _) with (server (httpGet hostName path)). rewrite Hresp.
    cbn [hd tl]. rewrite Hstatus. cbn [negb]. now rewrite skipHeaders_body.
  - intros Hresp. unfold loadFromURL. rewrite Hnet.
    change (server _) with (server (httpGet hostName path)). rewrite Hresp.
    cbn [hd tl]. rewrite Hstatus. cbn [negb]. now rewrite skipHeaders_all.
Qed.

(** X10: when the table of an identifier is not in memory and its load
    succeeds, [loadAndGet] puts the table in the map under the identifier,
    records the identifier as the most recently used one and returns that
    entry; the other entries of the map are as they were. *)
Theorem loadAndGet_loads (files : Files) (fileOrURL : string) (reg : Registry) (t : CSV) :
  inMemoryCSV reg !! resolved fileOrURL reg = None ->
  loadCSV csvLoad trim breakDownURL network files (resolved fileOrURL reg) = Ok t ->
  loadAndGet csvLoad trim breakDownURL network files fileOrURL reg
  = (Ok (resolved fileOrURL reg),
     mkRegistry (<[resolved fileOrURL reg := t]> (inMemoryCSV reg)) (resolved fileOrURL reg))
  /\ deref (snd (loadAndGet csvLoad trim breakDownURL network files fileOrURL reg))
       (resolved fileOrURL reg) = Some t
  /\ (forall other, other <> resolved fileOrURL reg ->
        deref (snd (loadAndGet csvLoad trim breakDownURL network files fileOrURL reg)) other
        = deref reg other).
Proof.
  intros Hmiss Hload.
  assert (Heq : loadAndGet csvLoad trim breakDownURL network files fileOrURL reg
    = (Ok (resolved fileOrURL reg),
       mkRegistry (<[resolved fileOrURL reg := t]> (inMemoryCSV reg)) (resolved fileOrURL reg))).
  { unfold loadAndGet. fold (resolved fileOrURL reg). cbn [inMemoryCSV recentCSV].
    now rewrite Hmiss, Hload. }
  rewrite Heq. unfold deref. cbn [snd inMemoryCSV].
  split; [reflexivity|]. split; [apply lookup_insert_eq|].
  intros other Hne. now apply lookup_insert_ne.
Qed.

(** X12: [saveQuery] writes at most the file named by the most recently
    used identifier: every other file is as it was, however the save ends,
    and a save that does not return normally has written nothing to the
    output. *)
Theorem saveQuery_other_files (reg : Registry) (files : Files) (o : string) :
  (forall other, other <> recentCSV reg ->
     snd (fst (saveQuery csvSave reg files o)) !! other = files !! other)
  /\ (fst (fst (saveQuery csvSave reg files o)) <> Ok tt ->
      snd (saveQuery csvSave reg files o) = o).
Proof.
  unfold saveQuery, Files in *.
  destruct (String.eqb (recentCSV reg) "" || starts_with "http://" (recentCSV reg)).
  - split; [reflexivity|reflexivity].
  - destruct (inMemoryCSV reg !! recentCSV reg) as [t|]; cbn [fst snd].
    + split; [|congruence]. intros other Hne.
      now rewrite !lookup_insert_ne by congruence.
    + split; [|reflexivity]. intros other Hne. now rewrite lookup_insert_ne by congruence.
Qed.

(** X13: a save followed by a fresh load gives back the table.  When the
    most recently used identifier names a local file whose table is in
    memory, and the loader reads back what the table saves, [saveQuery]
    returns normally and a [loadAndGet] of that identifier by a registry
    that does not hold it loads the same table from the file written. *)
Theorem save_then_load (reg : Registry) (files : Files) (o : string) (t : CSV) :
  recentCSV reg <> "" ->
  starts_with "http://" (recentCSV reg) = false ->
  inMemoryCSV reg !! recentCSV reg = Some t ->
  csvLoad (mkIStream true (csvSave t)) = Ok t ->
  saveQuery csvSave reg files o
  = (Ok tt, <[recentCSV reg := csvSave t]> files, o +:+ recentCSV reg +:+ " saved." +:+ endl)
  /\ (forall reg0,
        inMemoryCSV reg0 !! recentCSV reg = None ->
        loadAndGet csvLoad trim breakDownURL network
          (snd (fst (saveQuery csvSave reg files o))) (recentCSV reg) reg0
        = (Ok (recentCSV reg),
           mkRegistry (<[recentCSV reg := t]> (inMemoryCSV reg0)) (recentCSV reg))).
Proof.
  intros Hne Hlocal Hmem Hcodec.
  assert (Hsave : saveQuery csvSave reg files o
    = (Ok tt, <[recentCSV reg := csvSave t]> files,
       o +:+ recentCSV reg +:+ " saved." +:+ endl)).
  { unfold saveQuery, Files in *. apply String.eqb_neq in Hne. rewrite Hne, Hlocal. cbn [orb].
    rewrite Hmem. now rewrite insert_insert_eq. }
  split; [exact Hsave|].
  intros reg0 Hmiss. rewrite Hsave. cbn [fst snd].
  unfold loadAndGet. apply String.eqb_neq in Hne. rewrite Hne.
  cbn [inMemoryCSV recentCSV]. rewrite Hmiss.
  unfold loadCSV. rewrite Hlocal. unfold ifstream, Files in *. rewrite lookup_insert_eq.
  now rewrite Hcodec.
Qed.

(** X14: a save after a failed load destroys the file.  When the load of
    a local file that is not in memory fails, the identifier is left as
    the most recently used one with no table behind it; the save that
    follows opens the file, which empties it, and ends with out_of_range,
    having written nothing to the output. *)
Theorem save_after_failed_load (files : Files) (fileOrURL : string) (reg : Registry)
    (e : Exn) (o : string) :
  fileOrURL <> "" ->
  starts_with "http://" fileOrURL = false ->
  inMemoryCSV reg !! fileOrURL = None ->
  csvLoad (ifstream files fileOrURL) = Throw e ->
  saveQuery csvSave
    (snd (loadAndGet csvLoad trim breakDownURL network files fileOrURL reg)) files o
  = (Throw out_of_range, <[fileOrURL := []]> files, o).
Proof.
  intros Hne Hlocal Hmiss Hload.
  unfold loadAndGet. pose proof Hne as Hne'. apply String.eqb_neq in Hne'. rewrite Hne'.
  cbn [inMemoryCSV recentCSV]. rewrite Hmiss.
  unfold loadCSV. rewrite Hlocal, Hload. cbn [snd].
  unfold saveQuery. cbn [inMemoryCSV recentCSV]. rewrite Hne', Hlocal. cbn [orb].
  now rewrite Hmiss.
Qed.

End RegistryMore.

(** X11: a table is loaded once.  After a [loadAndGet] that returned, a
    later call for the reference it returned gives the same entry and
    leaves the registry as it is, whatever the files, the servers and the
    loader have become: the table in memory is not read again. *)
Theorem loadAndGet_once
    (csvLoad csvLoad' : IStream -> Res CSV) (trim trim' : string -> string)
    (breakDownURL breakDownURL' : string -> string * string * string)
    (network network' : string -> string -> option (string -> list string))
    (files files' : Files) (fileOrURL ref : string) (reg reg1 : Registry) :
  loadAndGet csvLoad trim breakDownURL network files fileOrURL reg = (Ok ref, reg1) ->
  loadAndGet csvLoad' trim' breakDownURL' network' files' ref reg1 = (Ok ref, reg1).
Proof.
  intros Hok.
  destruct (loadAndGet_Ok csvLoad trim breakDownURL network files fileOrURL reg reg1 ref Hok)
    as [Hrecent [t Ht]].
  assert (Hres : resolved ref reg1 = ref)
    by (unfold resolved; destruct (String.eqb ref ""); [exact Hrecent | reflexivity]).
  rewrite (loadAndGet_hit csvLoad' trim' breakDownURL' network' files' ref reg1 t)
    by (rewrite Hres; exact Ht).
  rewrite Hres. destruct reg1 as [m r]. cbn in *. now subst.
Qed.

(** * Further properties of the dispatcher *)

Lemma length_append (a b : string) :
  String.length (a +:+ b) = (String.length a + String.length b)%nat.
Proof.
  induction a as [|x a IH]; [reflexivity|].
  change (S (String.length (a +:+ b)) = S (String.length a + String.length b)).
  now rewrite IH.
Qed.

Lemma substring_all (b : string) : String.substring 0 (String.length b) b = b.
Proof. induction b as [|x b IH]; [reflexivity|]. simpl. now rewrite IH. Qed.

Lemma substring_skip (a b : string) (m : nat) :
  String.substring (String.length a) m (a +:+ b) = String.substring 0 m b.
Proof.
  induction a as [|x a IH]; [reflexivity|].
  change (String.substring (S (String.length a)) m (String x (a +:+ b))
          = String.substring 0 m b).
  simpl. exact IH.
Qed.

Lemma substr_append (a b : string) : substr (String.length a) (a +:+ b) = b.
Proof.
  unfold substr. rewrite length_append, substring_skip.
  replace (String.length a + String.length b - String.length a)%nat with (String.length b)
    by lia.
  apply substring_all.
Qed.

Lemma prefix_append (a b : string) : String.prefix a (a +:+ b) = true.
Proof.
  induction a as [|x a IH]; [destruct b; reflexivity|].
  change ((if ascii_dec x x then String.prefix a (a +:+ b) else false) = true).
  destruct (ascii_dec x x); [exact IH | congruence].
Qed.

Lemma contains_prefix (t s : string) : String.prefix t s = true -> contains t s = true.
Proof.
  intros H. unfold contains. destruct s as [|b s].
  - destruct t; [reflexivity | discriminate].
  - cbn [String.index]. now rewrite H.
Qed.

Section DispatcherMore.

Variable url_decode : string -> string.
Variable httpFile : string -> string.
Variable what : Exn -> string.
Variable process : string -> string * option Exn.

(** X15: a request whose path is the query marker followed by a query
    has the decoded query run, and is answered with the fixed 200 OK
    header, whose Content-Length is the length of the body, followed by
    the body: what the query wrote, with the line of its exception after
    it when it ended with one.  A request whose path is a slash followed
    by a name, without the marker, is answered with the file of the
    decoded name. *)
Theorem clientThread_answers (line q : string) (n : Z) (oss : string) (exn : option Exn) :
  process (url_decode q) = (oss, exn) ->
  fst (fst (clientThread url_decode httpFile what process
              (mkRequest line (queryMarker +:+ q)) n))
  = HTTPRespHeader (String.length (responseBody what oss exn)) +:+ responseBody what oss exn
  /\ (contains queryMarker ("/" +:+ q) = false ->
      fst (fst (clientThread url_decode httpFile what process (mkRequest line ("/" +:+ q)) n))
      = httpFile (url_decode q)).
Proof.
  intros Hp. split.
  - unfold clientThread. cbn [reqPath fst].
    change "/sql-air?query=" with queryMarker.
    rewrite (contains_prefix _ _ (prefix_append queryMarker q)).
    change 15%nat with (String.length queryMarker). rewrite substr_append, Hp.
    destruct exn; reflexivity.
  - intros Hno. unfold clientThread. cbn [reqPath fst].
    change "/sql-air?query=" with queryMarker. rewrite Hno.
    change (String.eqb ("/" +:+ q) "") with false. cbn [negb].
    change 1%nat with (String.length "/"). now rewrite substr_append.
Qed.

Variable maxThr : Z.
Variable n0 : Z.

Local Abbreviation server_step := (server_step url_decode httpFile what process maxThr).
Local Abbreviation reachable := (reachable url_decode httpFile what process maxThr n0).

(** X16: the counter counts the workers.  In every state the server
    reaches, the counter stands above its initial value by the number of
    running workers when the server loop is at its wait, and by one less
    between the creation of a thread and [numThreads++]. *)
Theorem counter_counts_workers (s : Server) :
  reachable s ->
  numThreads s = n0 + Z.of_nat (workers s) - (match pc s with Spawned => 1 | AtGate => 0 end).
Proof.
  intros Hr.
  destruct (reachable_invariant url_decode httpFile what process maxThr n0 s Hr) as (Hw & _).
  lia.
Qed.

Lemma reach_filled (k : nat) :
  n0 + Z.of_nat k <= maxThr + 1 ->
  reachable (mkServer (n0 + Z.of_nat k) k AtGate).
Proof.
  induction k as [|k IH]; intros Hk.
  - replace (n0 + Z.of_nat 0) with n0 by lia. apply reach_init.
  - eapply reach_step; [eapply reach_step; [apply IH; lia|]|].
    + apply runServer_admit. lia.
    + replace (n0 + Z.of_nat (S k)) with (n0 + Z.of_nat k + 1) by lia.
      apply runServer_count.
Qed.

(** X17: the gate can fill up to one worker more than the maximum, and
    is then closed.  When the counter starts at most one above the
    maximum, the server reaches a state with the counter at the maximum
    plus one and that many workers above the initial value running; from
    that state no connection is admitted: the only step is the end of a
    worker. *)
Theorem gate_fills_and_closes :
  n0 <= maxThr + 1 ->
  reachable (mkServer (maxThr + 1) (Z.to_nat (maxThr + 1 - n0)) AtGate)
  /\ (forall s', server_step (mkServer (maxThr + 1) (Z.to_nat (maxThr + 1 - n0)) AtGate) s' ->
        S (workers s') = Z.to_nat (maxThr + 1 - n0) /\ numThreads s' = maxThr).
Proof.
  intros Hn. split.
  - replace (maxThr + 1) with (n0 + Z.of_nat (Z.to_nat (maxThr + 1 - n0))) at 1 by lia.
    apply reach_filled. lia.
  - intros s' Hstep. inversion Hstep as [n w Hle | n w | n w p req]; subst.
    + lia.
    + cbn [workers numThreads]. split; [congruence|]. cbn. lia.
Qed.

(** X18: a maximum below the initial value of the counter keeps the gate
    shut: no connection is ever admitted, and the server stays in its
    initial state. *)
Theorem gate_never_opens (s : Server) :
  maxThr < n0 -> reachable s -> s = initialServer n0.
Proof.
  intros Hlt Hr. induction Hr as [|s s' Hr IH Hstep]; [reflexivity|].
  subst s. unfold initialServer in Hstep.
  inversion Hstep; subst; lia.
Qed.

End DispatcherMore.

(** * The generator of the employee file *)

Lemma countChar_append (c : ascii) (a b : string) :
  countChar c (a +:+ b) = (countChar c a + countChar c b)%nat.
Proof.
  induction a as [|x a IH]; [reflexivity|].
  change (countChar c (String x (a +:+ b)) = (countChar c (String x a) + countChar c b)%nat).
  simpl. rewrite IH. lia.
Qed.

Lemma to_string_no_comma (n : Z) : countChar ","%char (to_string n) = 0%nat.
Proof.
  assert (Hu : forall d, countChar ","%char (NilEmpty.string_of_uint d) = 0%nat)
    by (induction d; simpl; auto).
  assert (Hz : forall d, countChar ","%char (NilZero.string_of_uint d) = 0%nat)
    by (intros d; destruct d; try reflexivity; apply (Hu (_ d))).
  unfold to_string. destruct (Z.to_int n) as [d|d]; simpl; [apply Hz | now rewrite Hz].
Qed.

(** A check on the numbers below [n] holds of each of them. *)
Lemma range_check (f : Z -> bool) (n : nat) (k : Z) :
  forallb f (map Z.of_nat (seq 0 n)) = true -> 0 <= k < Z.of_nat n -> f k = true.
Proof.
  intros Hall Hk. rewrite forallb_forall in Hall. apply Hall.
  apply in_map_iff. exists (Z.to_nat k). split; [lia|]. apply in_seq. lia.
Qed.

Lemma year_length (k : Z) : 0 <= k < 51 -> String.length (to_string (k + 1950)) = 4%nat.
Proof.
  intros Hk.
  apply Nat.eqb_eq.
  apply (range_check (fun k => Nat.eqb (String.length (to_string (k + 1950))) 4) 51 k);
    [vm_compute; reflexivity | lia].
Qed.

Lemma pad2_length (k : Z) : 0 <= k < 28 -> String.length (pad2 (k + 1)) = 2%nat.
Proof.
  intros Hk.
  apply Nat.eqb_eq.
  apply (range_check (fun k => Nat.eqb (String.length (pad2 (k + 1))) 2) 28 k);
    [vm_compute; reflexivity | lia].
Qed.

Lemma randomDateOfBirth_no_comma (r1 r2 r3 : Z) :
  countChar ","%char (randomDateOfBirth r1 r2 r3) = 0%nat.
Proof.
  unfold randomDateOfBirth. cbv zeta. rewrite !countChar_append, !to_string_no_comma.
  destruct (Z.rem r2 12 + 1 <? 10), (Z.rem r3 28 + 1 <? 10); reflexivity.
Qed.

(** X19: for draws that are not negative, the date of birth is the year,
    a dash, the month on two digits, a dash and the day on two digits: ten
    characters, with a year from 1950 to 2000, a month from 1 to 12 and a
    day from 1 to 28, and no comma. *)
Theorem randomDateOfBirth_format (r1 r2 r3 : Z) :
  0 <= r1 -> 0 <= r2 -> 0 <= r3 ->
  exists year month day,
    1950 <= year <= 2000 /\ 1 <= month <= 12 /\ 1 <= day <= 28
    /\ randomDateOfBirth r1 r2 r3
       = to_string year +:+ "-" +:+ pad2 month +:+ "-" +:+ pad2 day
    /\ String.length (to_string year) = 4%nat
    /\ String.length (pad2 month) = 2%nat
    /\ String.length (pad2 day) = 2%nat
    /\ String.length (randomDateOfBirth r1 r2 r3) = 10%nat
    /\ countChar ","%char (randomDateOfBirth r1 r2 r3) = 0%nat.
Proof.
  intros H1 H2 H3.
  pose proof (Z.rem_bound_pos r1 51 H1 ltac:(lia)) as B1.
  pose proof (Z.rem_bound_pos r2 12 H2 ltac:(lia)) as B2.
  pose proof (Z.rem_bound_pos r3 28 H3 ltac:(lia)) as B3.
  exists (Z.rem r1 51 + 1950), (Z.rem r2 12 + 1), (Z.rem r3 28 + 1).
  assert (Heq : randomDateOfBirth r1 r2 r3
    = to_string (Z.rem r1 51 + 1950) +:+ "-" +:+ pad2 (Z.rem r2 12 + 1) +:+ "-"
      +:+ pad2 (Z.rem r3 28 + 1))
    by (unfold randomDateOfBirth, pad2; cbv zeta; now rewrite !append_assoc).
  assert (Ly := year_length (Z.rem r1 51) B1).
  assert (Lm := pad2_length (Z.rem r2 12) ltac:(lia)).
  assert (Ld := pad2_length (Z.rem r3 28) B3).
  repeat split; try lia; try assumption.
  - rewrite Heq, !length_append, Ly, Lm, Ld. reflexivity.
  - apply randomDateOfBirth_no_comma.
Qed.

Lemma concat_cons2 (sep x y : string) (l : list string) :
  String.concat sep (x :: y :: l) = x +:+ sep +:+ String.concat sep (y :: l).
Proof. reflexivity. Qed.

Lemma countChar_concat (l : list string) :
  Forall (fun d => countChar ","%char d = 0%nat) l -> l <> [] ->
  countChar ","%char (String.concat "," l) = (length l - 1)%nat.
Proof.
  intros Hall. induction Hall as [|x l Hx Hl IH]; intros Hne; [congruence|].
  destruct l as [|y l]; [simpl; exact Hx|].
  rewrite concat_cons2, !countChar_append, Hx, IH by discriminate. simpl. lia.
Qed.

Lemma concat_take_prefix (l : list string) (k k' : nat) :
  (1 <= k <= k')%nat -> (k' <= length l)%nat ->
  exists rest, String.concat "," (take k' l) = String.concat "," (take k l) +:+ rest.
Proof.
  revert k k'. induction l as [|x l IH]; intros k k' Hk Hk'; [simpl in Hk'; lia|].
  destruct k as [|a]; [lia|]. destruct k' as [|a']; [lia|]. simpl in Hk'.
  cbn [take].
  destruct a as [|a].
  - destruct a' as [|a'].
    + exists "". simpl. now rewrite append_nil_r.
    + destruct l as [|y l]; [simpl in Hk'; lia|]. cbn [take].
      rewrite concat_cons2. eexists. reflexivity.
  - destruct a' as [|a']; [lia|].
    destruct l as [|y l]; [simpl in Hk'; lia|].
    destruct (IH (S a) (S a') ltac:(lia) ltac:(lia)) as [rest Hrest].
    cbn [take] in *. rewrite !concat_cons2, Hrest.
    exists rest. now rewrite !append_assoc.
Qed.

Section PopulateFacts.

Variable shuffle : list string -> list string.

Lemma daysLoop_concat (days : list string) (fuel i : nat) (result : string) :
  (i + fuel <= length days)%nat ->
  daysLoop days (Z.of_nat (i + fuel)) i fuel result
  = result +:+ String.concat "," (take fuel (drop i days)).
Proof.
  revert i result. induction fuel as [|f IH]; intros i result Hlen.
  - simpl. now rewrite append_nil_r.
  - destruct (lookup_lt_is_Some_2 days i ltac:(lia)) as [x Hx].
    cbn [daysLoop]. rewrite nth_lookup, Hx. cbn [default].
    rewrite (drop_S _ _ _ Hx). cbn [take].
    replace (i + S f)%nat with (S i + f)%nat by lia.
    destruct f as [|f].
    + replace (Z.of_nat i <? Z.of_nat (S i + 0) - 1) with false
        by (symmetry; apply Z.ltb_ge; lia).
      simpl. reflexivity.
    + replace (Z.of_nat i <? Z.of_nat (S i + S f) - 1) with true
        by (symmetry; apply Z.ltb_lt; lia).
      rewrite IH by lia.
      destruct (lookup_lt_is_Some_2 days (S i) ltac:(lia)) as [y Hy].
      rewrite (drop_S _ _ _ Hy). cbn [take]. rewrite concat_cons2.
      now rewrite !append_assoc.
Qed.

Lemma randomDaysAvailable_concat (r : Z) :
  0 <= r -> length (shuffle weekdays) = 5%nat ->
  randomDaysAvailable shuffle r
  = String.concat "," (take (Z.to_nat (Z.rem r 5 + 1)) (shuffle weekdays)).
Proof.
  intros Hr Hlen. unfold randomDaysAvailable. cbv zeta.
  pose proof (Z.rem_bound_pos r 5 Hr ltac:(lia)) as B.
  replace (Z.rem r 5 + 1) with (Z.of_nat (0 + Z.to_nat (Z.rem r 5 + 1))) at 1 by lia.
  rewrite daysLoop_concat by (rewrite Hlen; lia).
  reflexivity.
Qed.

Lemma weekdays_no_comma : Forall (fun d => countChar ","%char d = 0%nat) weekdays.
Proof. repeat constructor. Qed.

Lemma weekdays_distinct : NoDup weekdays.
Proof. apply (bool_decide_unpack (NoDup weekdays)). vm_compute. reflexivity. Qed.

Lemma taken_is_shuffled (n : nat) (d : string) :
  In d (take n (shuffle weekdays)) -> In d (shuffle weekdays).
Proof.
  intros Hd. apply list_elem_of_In. apply list_elem_of_In in Hd.
  now apply (subseteq_take n (shuffle weekdays) d).
Qed.

Lemma randomDaysAvailable_commas (r : Z) :
  0 <= r -> Permutation weekdays (shuffle weekdays) ->
  countChar ","%char (randomDaysAvailable shuffle r) = Z.to_nat (Z.rem r 5).
Proof.
  intros Hr Hperm.
  pose proof (Z.rem_bound_pos r 5 Hr ltac:(lia)) as B.
  assert (Hlen : length (shuffle weekdays) = 5%nat)
    by (rewrite <- (Permutation_length Hperm); reflexivity).
  rewrite randomDaysAvailable_concat by assumption.
  rewrite countChar_concat.
  - rewrite length_take, Hlen. lia.
  - apply List.Forall_forall. intros d Hd. apply taken_is_shuffled in Hd.
    apply (Permutation_in d (Permutation_sym Hperm)) in Hd.
    pose proof weekdays_no_comma as Hw. rewrite List.Forall_forall in Hw. now apply Hw.
  - intros Hnil. apply (f_equal length) in Hnil. rewrite length_take, Hlen in Hnil.
    simpl in Hnil. lia.
Qed.

(** X20: for a draw that is not negative and a shuffle that permutes the
    five weekdays, the days available are the first [draw % 5 + 1] days of
    the shuffled vector, separated by commas with no comma at the end: from
    one to five distinct weekdays, and one comma less than days. *)
Theorem randomDaysAvailable_lists (r : Z) :
  0 <= r -> Permutation weekdays (shuffle weekdays) ->
  randomDaysAvailable shuffle r
  = String.concat "," (take (Z.to_nat (Z.rem r 5 + 1)) (shuffle weekdays))
  /\ (1 <= length (take (Z.to_nat (Z.rem r 5 + 1)) (shuffle weekdays)) <= 5)%nat
  /\ NoDup (take (Z.to_nat (Z.rem r 5 + 1)) (shuffle weekdays))
  /\ Forall (fun d => In d weekdays) (take (Z.to_nat (Z.rem r 5 + 1)) (shuffle weekdays))
  /\ countChar ","%char (randomDaysAvailable shuffle r) = Z.to_nat (Z.rem r 5).
Proof.
  intros Hr Hperm.
  pose proof (Z.rem_bound_pos r 5 Hr ltac:(lia)) as B.
  assert (Hlen : length (shuffle weekdays) = 5%nat)
    by (rewrite <- (Permutation_length Hperm); reflexivity).
  split; [now apply randomDaysAvailable_concat|].
  split; [rewrite length_take, Hlen; lia|]. split; [|split].
  - assert (Hnd : NoDup (shuffle weekdays)) by (rewrite <- Hperm; apply weekdays_distinct).
    rewrite <- (take_drop (Z.to_nat (Z.rem r 5 + 1)) (shuffle weekdays)) in Hnd.
    apply NoDup_app in Hnd. now destruct Hnd as [Hnd _].
  - apply List.Forall_forall. intros d Hd. apply taken_is_shuffled in Hd.
    now apply (Permutation_in d (Permutation_sym Hperm)).
  - now apply randomDaysAvailable_commas.
Qed.

(** X21: every call shuffles the weekdays in the same way, so the days of
    two employees are never unrelated: with draws that are not negative,
    the days available for the smaller [draw % 5] are the beginning of the
    days available for the larger one. *)
Theorem randomDaysAvailable_prefix (r r' : Z) :
  0 <= r -> 0 <= r' -> length (shuffle weekdays) = 5%nat ->
  Z.rem r 5 <= Z.rem r' 5 ->
  exists rest, randomDaysAvailable shuffle r' = randomDaysAvailable shuffle r +:+ rest.
Proof.
  intros Hr Hr' Hlen Hle.
  pose proof (Z.rem_bound_pos r 5 Hr ltac:(lia)) as B.
  pose proof (Z.rem_bound_pos r' 5 Hr' ltac:(lia)) as B'.
  rewrite !randomDaysAvailable_concat by assumption.
  apply concat_take_prefix; [lia | rewrite Hlen; lia].
Qed.

(** ** populateData *)

Lemma populateLoop_map (draws : nat -> Draws) (fuel i : nat) (written : list string) :
  populateLoop shuffle draws i fuel written
  = written ++ map (fun j => employeeLine shuffle j (draws j)) (seq i fuel).
Proof.
  revert i written. induction fuel as [|f IH]; intros i written.
  - simpl. now rewrite app_nil_r.
  - cbn [populateLoop seq map]. rewrite IH. now rewrite <- app_assoc.
Qed.

(** X22: [populateData] writes the file anew.  Whatever employee.csv held
    before, it holds afterwards the header line followed by the lines of
    the employees 1 to 1000 in order, 1001 lines in all; no other file is
    touched and 0 is returned. *)
Theorem populateData_file (draws : nat -> Draws) (files : Files) (cout : string) :
  fst (fst (populateData shuffle draws files cout)) = 0
  /\ snd (fst (populateData shuffle draws files cout)) !! filename
     = Some ("Name,Date of Birth,Gender,Days Available"
             :: map (fun j => employeeLine shuffle j (draws j)) (seq 0 numEntries))
  /\ (forall ls, snd (fst (populateData shuffle draws files cout)) !! filename = Some ls ->
                 length ls = 1001%nat)
  /\ (forall other, other <> filename ->
        snd (fst (populateData shuffle draws files cout)) !! other = files !! other).
Proof.
  assert (Hfile : snd (fst (populateData shuffle draws files cout)) !! filename
     = Some ("Name,Date of Birth,Gender,Days Available"
             :: map (fun j => employeeLine shuffle j (draws j)) (seq 0 numEntries))).
  { unfold populateData, appendLines, clearPreviousData, Files in *. cbn [fst snd].
    rewrite lookup_insert_eq. rewrite lookup_insert_eq. cbn [default app].
    now rewrite populateLoop_map. }
  split; [reflexivity|]. split; [exact Hfile|]. split.
  - intros ls Hls. rewrite Hfile in Hls. injection Hls as Hls. subst ls.
    change (S (length (map (fun j => employeeLine shuffle j (draws j)) (seq 0 numEntries)))
            = 1001%nat).
    rewrite length_map, length_seq. reflexivity.
  - intros other Hne.
    unfold populateData, appendLines, clearPreviousData, Files in *. cbn [fst snd].
    now rewrite !lookup_insert_ne by congruence.
Qed.

(** X23: the line of an employee has more commas than the header.  With
    a draw for the days that is not negative and a shuffle that permutes
    the weekdays,
    the line has the three commas of the header line plus one for each
    day after the first: it has as many fields as the header only when a
    single day is drawn. *)
Theorem employeeLine_commas (i : nat) (d : Draws) :
  0 <= daysDraw d ->
  Permutation weekdays (shuffle weekdays) ->
  countChar ","%char (employeeLine shuffle i d)
  = (countChar ","%char "Name,Date of Birth,Gender,Days Available"
     + Z.to_nat (Z.rem (daysDraw d) 5))%nat.
Proof.
  intros Hdays Hperm.
  unfold employeeLine. cbv zeta.
  rewrite !countChar_append, to_string_no_comma, randomDateOfBirth_no_comma,
    randomDaysAvailable_commas by assumption.
  unfold randomGender. destruct (Z.rem (genderDraw d) 2 =? 0); reflexivity.
Qed.

End PopulateFacts.

(** * Runs of the further properties *)

Lemma people_where_defined (whereColIdx : Z) (value : string) :
  0 <= whereColIdx < 2 -> whereDefined simple_matches people whereColIdx "=" value.
Proof. intros H. right. split; [simpl; lia|]. intros cell. eexists. reflexivity. Qed.

Lemma people_rectangular : rectangular people.
Proof. repeat constructor. Qed.

Lemma people_countable : countable people.
Proof. unfold countable, INT_MAX. simpl. lia. Qed.

Lemma queries_on_empty_table_witness :
  selectQuery simple_matches no_race false ["Bogus"] 7 "like" "x" (start nobody [])
  = (Done tt, mkExec nobody ("0 row(s) selected." +:+ endl) [] [])
  /\ updateQuery simple_matches false ["Bogus"] [] 7 "like" "x" (start nobody [])
     = (Done tt, mkExec nobody ("0 row(s) updated." +:+ endl) [] []).
Proof.
  destruct (queries_on_empty_table simple_matches no_race ["Bogus"] [] 7 "like" "x" (start nobody []))
    as (Hs & Hu & _); [reflexivity|].
  split; [apply Hs; discriminate | exact Hu].
Defined.

Lemma where_index_out_of_range_witness :
  selectQuery simple_matches no_race false ["Name"] 2 "=" "30" (start people [])
  = (Raised out_of_range, mkExec people "" [Lock (rowMutex 0); Unlock (rowMutex 0)] [])
  /\ updateQuery simple_matches false ["Age"] ["31"] (-2) "=" "30" (start people [])
     = (Raised out_of_range, mkExec people "" [Lock (rowMutex 0); Unlock (rowMutex 0)] []).
Proof.
  split.
  - destruct (where_index_out_of_range simple_matches no_race false ["Name"] [] 2 "=" "30"
                (start people []) ["Alice"; "30"] [["Bob"; "25"]; ["Carol"; "30"]])
      as [H _]; [reflexivity | lia | simpl; lia |].
    apply H. discriminate.
  - destruct (where_index_out_of_range simple_matches no_race false ["Age"] ["31"] (-2) "=" "30"
                (start people []) ["Alice"; "30"] [["Bob"; "25"]; ["Carol"; "30"]])
      as [_ H]; [reflexivity | lia | simpl; lia |].
    exact H.
Defined.

Lemma matcher_exception_propagates_witness :
  updateQuery simple_matches false ["Age"] ["31"] 0 "like" "Al" (start people [])
  = (Raised (Exp InvalidQuery "Invalid operator: like"),
     mkExec people "" [Lock (rowMutex 0); Unlock (rowMutex 0)] []).
Proof.
  destruct (matcher_exception_propagates simple_matches no_race false ["Age"] ["31"] 0 "like" "Al"
              (start people []) ["Alice"; "30"] [["Bob"; "25"]; ["Carol"; "30"]] "Alice"
              (Exp InvalidQuery "Invalid operator: like"))
    as [_ H]; [reflexivity | lia | reflexivity | reflexivity |].
  exact H.
Defined.

Lemma update_with_too_few_values_witness :
  exists n before row after,
    csvRows people = before ++ row :: after
    /\ List.filter (rowSatisfies simple_matches 1 "=" "30") before = []
    /\ rowSatisfies simple_matches 1 "=" "30" row = true
    /\ updateQuery simple_matches false ["Name"; "Age"] ["Ann"] 1 "=" "30" (start people [])
       = (Raised out_of_range,
          mkExec (mkCSV (getColumnNames people)
                    (before ++ assign people ["Name"] ["Ann"] row :: after))
            "" (rowGuards 0 n) []).
Proof.
  apply (update_with_too_few_values simple_matches false ["Name"; "Age"] ["Ann"] 1 "=" "30"
           (start people [])).
  - apply people_rectangular.
  - apply people_where_defined. lia.
  - simpl. known_cols.
  - simpl. lia.
  - discriminate.
Defined.

Lemma update_twice_witness :
  matching simple_matches 0 "=" "Alice"
    (csv (snd (updateQuery simple_matches false ["Age"] ["31"] 0 "=" "Alice" (start people []))))
  = [["Alice"; "31"]]
  /\ fst (updateQuery simple_matches false ["Age"] ["31"] 0 "=" "Alice"
            (snd (updateQuery simple_matches false ["Age"] ["31"] 0 "=" "Alice"
                    (start people []))))
     = Done tt.
Proof.
  destruct (update_twice simple_matches ["Age"] ["31"] 0 "=" "Alice" (start people []))
    as [H1 H2].
  - apply people_rectangular.
  - known_cols.
  - simpl. lia.
  - apply people_where_defined. lia.
  - apply people_countable.
  - intros c [<-|[]]. discriminate.
  - split; [rewrite H1; reflexivity | rewrite H2; reflexivity].
Defined.

Lemma select_everything_witness :
  selectQuery simple_matches no_race false ["*"] (-1) "" "" (start people [])
  = (Done tt,
     mkExec people
       ("Name" +:+ tab +:+ "Age" +:+ endl +:+ "Alice" +:+ tab +:+ "30" +:+ endl
        +:+ "Bob" +:+ tab +:+ "25" +:+ endl +:+ "Carol" +:+ tab +:+ "30" +:+ endl
        +:+ "3 row(s) selected." +:+ endl)
       (rowGuards 0 3) []).
Proof.
  rewrite (select_everything simple_matches no_race [] "" "" (start people [])).
  - reflexivity.
  - apply (bool_decide_unpack (NoDup (getColumnNames (csv (start people []))))).
    vm_compute. reflexivity.
  - apply people_rectangular.
  - apply people_countable.
Defined.

Lemma loadFromURL_payload_witness :
  loadFromURL simple_load no_trim one_server "data.com" "8080" "/nobody.csv" = Ok nobody
  /\ loadFromURL simple_load no_trim headers_only_server "data.com" "8080" "/nobody.csv"
     = Throw (Exp LoadFailed "Unable to read the stream").
Proof.
  split.
  - destruct (loadFromURL_payload simple_load no_trim one_server "data.com" "8080" "/nobody.csv"
                "HTTP/1.1 200 OK" (fun request => ["HTTP/1.1 200 OK"; "Server: SimpleServer"; CR;
                                                   "Name"; "Age"])
                ["Server: SimpleServer"]) as [H _].
    + reflexivity.
    + reflexivity.
    + constructor; [|constructor]. intros [H|H]; discriminate.
    + rewrite (H CR ["Name"; "Age"]); [reflexivity | reflexivity | now right].
  - destruct (loadFromURL_payload simple_load no_trim headers_only_server "data.com" "8080"
                "/nobody.csv" "HTTP/1.1 200 OK"
                (fun request => ["HTTP/1.1 200 OK"; "Server: SimpleServer"])
                ["Server: SimpleServer"]) as [_ H].
    + reflexivity.
    + reflexivity.
    + constructor; [|constructor]. intros [H|H]; discriminate.
    + rewrite H; reflexivity.
Defined.

Lemma loadAndGet_loads_witness :
  loadAndGet simple_load no_trim whole_URL offline one_file "b.csv" loaded
  = (Ok "b.csv", mkRegistry (<["b.csv" := nobody]> (inMemoryCSV loaded)) "b.csv")
  /\ deref (snd (loadAndGet simple_load no_trim whole_URL offline one_file "b.csv" loaded))
       "a.csv" = Some people.
Proof.
  destruct (loadAndGet_loads simple_load no_trim whole_URL offline one_file "b.csv" loaded nobody)
    as (H1 & _ & H3); [reflexivity | reflexivity |].
  split; [exact H1|]. rewrite H3 by discriminate. reflexivity.
Defined.

Lemma loadAndGet_once_witness :
  loadAndGet simple_load no_trim whole_URL offline ∅ "b.csv"
    (mkRegistry (<["b.csv" := nobody]> (inMemoryCSV loaded)) "b.csv")
  = (Ok "b.csv", mkRegistry (<["b.csv" := nobody]> (inMemoryCSV loaded)) "b.csv").
Proof.
  apply (loadAndGet_once simple_load simple_load no_trim no_trim whole_URL whole_URL
           offline offline one_file ∅ "b.csv" "b.csv" loaded).
  reflexivity.
Defined.

Lemma save_then_load_witness :
  saveQuery simple_save loaded_nobody ∅ ""
  = (Ok tt, <["a.csv" := ["Name"; "Age"]]> ∅, "a.csv saved." +:+ endl)
  /\ loadAndGet simple_load no_trim whole_URL offline
       (snd (fst (saveQuery simple_save loaded_nobody ∅ ""))) "a.csv" emptyRegistry
     = (Ok "a.csv", mkRegistry (<["a.csv" := nobody]> ∅) "a.csv").
Proof.
  destruct (save_then_load simple_load simple_save no_trim whole_URL offline
              loaded_nobody ∅ "" nobody) as [H1 H2];
    [discriminate | reflexivity | reflexivity | reflexivity |].
  split; [exact H1|]. apply (H2 emptyRegistry). reflexivity.
Defined.

Lemma save_after_failed_load_witness :
  saveQuery simple_save
    (snd (loadAndGet simple_load no_trim whole_URL offline ∅ "missing.csv" loaded)) ∅ ""
  = (Throw out_of_range, <["missing.csv" := []]> ∅, "").
Proof.
  apply (save_after_failed_load simple_load simple_save no_trim whole_URL offline
           ∅ "missing.csv" loaded (Exp LoadFailed "Unable to read the stream") "").
  - discriminate.
  - reflexivity.
  - reflexivity.
  - reflexivity.
Defined.

Lemma clientThread_answers_witness :
  fst (fst (clientThread plain_decode no_file what_of failing_process
              (mkRequest "GET" "/sql-air?query=insert") 1))
  = HTTPRespHeader 38 +:+ "Error: insert is not yet implemented." +:+ endl.
Proof.
  destruct (clientThread_answers plain_decode no_file what_of failing_process
              "GET" "insert" 1 "" (Some (Exp NotImplemented "insert is not yet implemented.")))
    as [H _]; [reflexivity|].
  exact H.
Defined.

Lemma counter_counts_workers_witness :
  numThreads (mkServer 1 2 Spawned) = 0 + Z.of_nat 2 - 1.
Proof.
  apply (counter_counts_workers plain_decode no_file what_of failing_process 1 0
           (mkServer 1 2 Spawned)).
  apply reach_two_workers.
Defined.

Lemma gate_fills_and_closes_witness :
  reachable plain_decode no_file what_of failing_process 1 0 (mkServer 2 2 AtGate).
Proof.
  destruct (gate_fills_and_closes plain_decode no_file what_of failing_process 1 0) as [H _];
    [lia|].
  exact H.
Defined.

Lemma gate_never_opens_witness : initialServer 5 = initialServer 5.
Proof.
  apply (gate_never_opens plain_decode no_file what_of failing_process 4 5 (initialServer 5)).
  - lia.
  - apply reach_init.
Defined.

Lemma randomDateOfBirth_format_witness :
  String.length (randomDateOfBirth 1234567 11 27) = 10%nat.
Proof.
  destruct (randomDateOfBirth_format 1234567 11 27) as (y & m & d & H); [lia | lia | lia |].
  apply H.
Defined.

Lemma randomDaysAvailable_lists_witness :
  randomDaysAvailable no_shuffle 7 = "Monday,Tuesday,Wednesday".
Proof.
  destruct (randomDaysAvailable_lists no_shuffle 7) as [H _]; [lia | reflexivity |].
  rewrite H. reflexivity.
Defined.

Lemma randomDaysAvailable_prefix_witness :
  exists rest, randomDaysAvailable no_shuffle 7 = randomDaysAvailable no_shuffle 5 +:+ rest.
Proof.
  apply (randomDaysAvailable_prefix no_shuffle 5 7); [lia | lia | reflexivity |].
  vm_compute. discriminate.
Defined.

Lemma employeeLine_commas_witness :
  countChar ","%char (employeeLine no_shuffle 0 (some_draws 2)) = 5%nat.
Proof.
  rewrite (employeeLine_commas no_shuffle 0 (some_draws 2)); [reflexivity | simpl; lia |].
  reflexivity.
Defined.
